(** * configlite: the repository layer over its SQLite store

    A shallow embedding of [config.go] (package [configlite]).  The Go
    methods of [Repository] become functions that take the repository and
    return the repository after the call together with the Go results; an
    [error] result is an [option error] ([None] is Go's [nil]).

    What the engine does for each of the eight SQL texts of the package is
    modelled on two tables held as lists of rows in insertion order.  The
    model covers the meaning of the statements, the violated constraint and
    the LIKE pattern that the engine refuses; failures of the medium (disk,
    locks, a closed handle) are not part of it, so the branches of the Go
    code that wrap only such failures are kept in the functions but are not
    taken by this engine.  Row counts are unbounded integers. *)

From Stdlib Require Import ZArith Ascii DecimalString.
From stdpp Require Import gmap strings list fin_maps.

(** ** Go errors *)

(** Primary result codes of the driver's [sqlite3.Error]: the generic one
    and the one of a violated constraint. *)
Inductive ErrNo :=
| ErrError        (* SQLITE_ERROR *)
| ErrConstraint.  (* SQLITE_CONSTRAINT *)

(** [ErrConfigNotFound] is the package variable allocated once by
    [fmt.Errorf("configuration value not found")]; Go compares it by
    identity, hence a constructor of its own.  [errorString] is any other
    [fmt.Errorf] without [%w], [wrapError] a [fmt.Errorf] with one [%w]
    (it keeps the formatted text and the wrapped error), [sqlite3Error] an
    error of the driver. *)
Inductive error :=
| ErrConfigNotFound
| errorString (s : string)
| wrapError (msg : string) (err : error)
| sqlite3Error (Code : ErrNo) (msg : string).

#[global] Instance ErrNo_eq_dec : EqDecision ErrNo.
Proof. solve_decision. Defined.

#[global] Instance error_eq_dec : EqDecision error.
Proof. solve_decision. Defined.

(** The [Error()] method. *)
Definition Error (e : error) : string :=
  match e with
  | ErrConfigNotFound => "configuration value not found"
  | errorString s => s
  | wrapError msg _ => msg
  | sqlite3Error _ msg => msg
  end.

(** [errors.Is]: the chain of [Unwrap] is searched for the target. *)
Fixpoint errors_Is (err target : error) : bool :=
  if decide (err = target) then true
  else match err with
       | wrapError _ inner => errors_Is inner target
       | _ => false
       end.

(** [fmt.Errorf(prefix + "%w", err)]. *)
Definition Errorf_w (prefix : string) (err : error) : error :=
  wrapError (prefix +:+ Error err) err.

(** The verb [%d] on an [int64]. *)
Definition fmt_d (n : Z) : string := NilZero.string_of_int (Z.to_int n).

(** ** The database *)

(** A row of [configurations]. *)
Record configuration := Configuration {
  application_name : string;
  configuration_name : string;
  configuration_value : string
}.

#[global] Instance configuration_eq_dec : EqDecision configuration.
Proof. solve_decision. Defined.

(** The two tables, rows in insertion order.  The package writes only Go
    strings, so no column holds NULL. *)
Record DB := mkDB {
  applications : list string;
  configurations : list configuration
}.

(** The row is the one of application [a] named [k]. *)
Definition has_key (a k : string) (c : configuration) : Prop :=
  application_name c = a ∧ configuration_name c = k.

#[global] Instance has_key_dec a k c : Decision (has_key a k c).
Proof. unfold has_key. apply _. Defined.

Definition key (c : configuration) : string * string :=
  (application_name c, configuration_name c).

(** Modelled from the spec: the schema is created by [runMigrations], whose
    file is not part of the sources read here.  The specification gives it as
    [applications(name TEXT UNIQUE PRIMARY KEY)] and
    [configurations(application_name TEXT, configuration_name TEXT,
    configuration_value TEXT, UNIQUE(application_name, configuration_name))],
    with no enforced reference from the second table to the first.  The
    two uniqueness constraints are what a database under this schema
    satisfies. *)
Definition schema_ok (d : DB) : Prop :=
  NoDup (applications d) ∧ NoDup (key <$> configurations d).

(** Modelled from the spec: [runMigrations] on a new database file leaves
    the two tables in place and empty. *)
Definition runMigrations_fresh : DB := mkDB [] [].

(** A result row: the column values in the order of the SELECT list. *)
Definition row := list string.

(** [sql.Result], of which the package reads [RowsAffected] only. *)
Record Result := mkResult { rowsAffected : Z }.

(** The statements the package sends through [db.Query]. *)
Inductive query :=
| SelectApplications
    (* SELECT name FROM applications *)
| SelectConfigurations (applicationName : string)
    (* SELECT configuration_name, configuration_value FROM configurations
       WHERE application_name = ? *)
| SelectConfigurationValue (applicationName configName : string).
    (* SELECT configuration_value FROM configurations
       WHERE application_name = ? AND configuration_name = ? *)

(** The statements the package sends through [db.Exec]. *)
Inductive statement :=
| InsertApplication (applicationName : string)
    (* INSERT INTO applications (name) VALUES (?) *)
| InsertApplicationDoNothing (applicationName : string)
    (* INSERT INTO applications (name) VALUES (?) ON CONFLICT DO NOTHING *)
| UpsertConfiguration (applicationName configName configValue : string)
    (* INSERT INTO configurations (...) VALUES (?1, ?2, ?3)
       ON CONFLICT (application_name, configuration_name) DO
       UPDATE SET configuration_value = ?3 *)
| DeleteConfigurationEq (applicationName configName : string)
    (* DELETE FROM configurations
       WHERE application_name = ? AND configuration_name = ? *)
| DeleteConfigurationLike (applicationName configName : string).
    (* DELETE FROM configurations
       WHERE application_name = ? AND configuration_name LIKE ? *)

Definition set_value (v : string) (c : configuration) : configuration :=
  Configuration (application_name c) (configuration_name c) v.

(** The table [configurations] after the upsert statement: the row with
    the conflicting key gets the new value, and without a conflict the row
    is added. *)
Definition upsert_rows (a k v : string) (l : list configuration)
  : list configuration :=
  if decide (Exists (has_key a k) l)
  then (λ c, if decide (has_key a k c) then set_value v c else c) <$> l
  else l ++ [Configuration a k v].

Definition db_Query (d : DB) (q : query) : list row * option error :=
  match q with
  | SelectApplications =>
      ((λ name, [name]) <$> applications d, None)
  | SelectConfigurations a =>
      ((λ c, [configuration_name c; configuration_value c])
         <$> filter (λ c, application_name c = a) (configurations d), None)
  | SelectConfigurationValue a k =>
      ((λ c, [configuration_value c])
         <$> filter (has_key a k) (configurations d), None)
  end.

(** The engine's LIKE operator, [like pattern subject].  The wildcard
    semantics belong to the query language, not to the package: the
    operator is an interface of the engine and everything below holds for
    each of its implementations.

    The engine refuses some patterns: SQLite fails a statement with "LIKE or
    GLOB pattern too complex" as soon as it evaluates LIKE with a pattern of
    more than 50,000 bytes.  [like_error pattern] is the code and the text
    of the driver's [sqlite3.Error] for such a pattern.  A refused pattern
    has no truth value; [like] is false on it, as nothing matches it. *)
Class LikeOperator := {
  like : string → string → bool;
  like_error : string → option (ErrNo * string);
  like_error_false : ∀ pattern subject,
    is_Some (like_error pattern) → like pattern subject = false
}.

Section Engine.

Context {L : LikeOperator}.

(** The row is one of application [a] whose name matches the pattern. *)
Definition like_key (a pattern : string) (c : configuration) : Prop :=
  application_name c = a ∧ like pattern (configuration_name c) = true.

#[global] Instance like_key_dec a p c : Decision (like_key a p c).
Proof. unfold like_key. apply _. Defined.

(** The error of a statement that evaluates [LIKE pattern] on the rows of
    application [a]: the engine evaluates it, and fails, when the table has
    such a row and the pattern is one it refuses. *)
Definition like_refused (a pattern : string) (d : DB)
  : option (ErrNo * string) :=
  match like_error pattern with
  | Some e =>
      if decide (Exists (λ c, application_name c = a) (configurations d))
      then Some e else None
  | None => None
  end.

Definition db_Exec (d : DB) (s : statement) : DB * Result * option error :=
  match s with
  | InsertApplication a =>
      if decide (a ∈ applications d)
      then (d, mkResult 0,
            Some (sqlite3Error ErrConstraint
                    "UNIQUE constraint failed: applications.name"))
      else (mkDB (applications d ++ [a]) (configurations d), mkResult 1, None)
  | InsertApplicationDoNothing a =>
      if decide (a ∈ applications d)
      then (d, mkResult 0, None)
      else (mkDB (applications d ++ [a]) (configurations d), mkResult 1, None)
  | UpsertConfiguration a k v =>
      (mkDB (applications d) (upsert_rows a k v (configurations d)),
       mkResult 1, None)
  | DeleteConfigurationEq a k =>
      (mkDB (applications d)
         (filter (λ c, ¬ has_key a k c) (configurations d)),
       mkResult (Z.of_nat (length (filter (has_key a k) (configurations d)))),
       None)
  | DeleteConfigurationLike a p =>
      match like_refused a p d with
      | Some (code, msg) => (d, mkResult 0, Some (sqlite3Error code msg))
      | None =>
          (mkDB (applications d)
             (filter (λ c, ¬ like_key a p c) (configurations d)),
           mkResult
             (Z.of_nat (length (filter (like_key a p) (configurations d)))),
           None)
      end
  end.

End Engine.

(** ** The repository *)

Record Repository := mkRepository { db : DB }.

(** Modelled from the spec: [New] on a new database file; it opens the
    file and calls [runMigrations], whose file is not part of the sources
    read here. *)
Definition New_fresh : Repository := mkRepository runMigrations_fresh.

(** [rows.Scan(&name)]: one destination, so one column is expected. *)
Definition Scan1 (r : row) : string * option error :=
  match r with
  | [v] => (v, None)
  | _ => ("", Some (errorString
           ("sql: expected " +:+ fmt_d (Z.of_nat (length r)) +:+
            " destination arguments in Scan, not 1")))
  end.

(** [rows.Scan(&name, &value)]. *)
Definition Scan2 (r : row) : string * string * option error :=
  match r with
  | [v1; v2] => (v1, v2, None)
  | _ => ("", "", Some (errorString
           ("sql: expected " +:+ fmt_d (Z.of_nat (length r)) +:+
            " destination arguments in Scan, not 2")))
  end.

(** The loop [for rows.Next()] of [GetApps]; [apps] is the slice built so
    far. *)
Fixpoint GetApps_rows (rows : list row) (apps : list string)
  : list string * option error :=
  match rows with
  | [] => (apps, None)
  | r :: rows' =>
      match Scan1 r with
      | (_, Some err) =>
          ([], Some (Errorf_w "cannot scan application table row: " err))
      | (name, None) => GetApps_rows rows' (apps ++ [name])
      end
  end.

Definition GetApps (r : Repository) : list string * option error :=
  match db_Query (db r) SelectApplications with
  | (_, Some err) => ([], Some (Errorf_w "cannot query the database: " err))
  | (rows, None) => GetApps_rows rows []
  end.

(** The loop of [GetConfigs]; [configs] is the Go map built so far.  On a
    failed scan the Go code returns the nil map, which reads as the empty
    one. *)
Fixpoint GetConfigs_rows (applicationName : string) (rows : list row)
    (configs : gmap string string) : gmap string string * option error :=
  match rows with
  | [] => (configs, None)
  | r :: rows' =>
      match Scan2 r with
      | (_, _, Some err) =>
          (∅, Some (Errorf_w ("cannot scan single config: " +:+
                                applicationName +:+ " - ") err))
      | (name, value, None) =>
          GetConfigs_rows applicationName rows' (<[name := value]> configs)
      end
  end.

Definition GetConfigs (r : Repository) (applicationName : string)
  : gmap string string * option error :=
  match db_Query (db r) (SelectConfigurations applicationName) with
  | (_, Some err) =>
      (∅, Some (Errorf_w ("cannot get configurations from database: " +:+
                            applicationName +:+ " - ") err))
  | (rows, None) => GetConfigs_rows applicationName rows ∅
  end.

(** The text [(%s, %s)] of the two identifiers, as the formats of
    [GetConfig] and [DeleteConfig] print it. *)
Definition pair_text (applicationName configName : string) : string :=
  "(" +:+ applicationName +:+ ", " +:+ configName +:+ ")".

(** [fmt.Errorf("%w: (%s, %s)", ErrConfigNotFound, applicationName,
    configName)]. *)
Definition not_found (applicationName configName : string) : error :=
  wrapError (Error ErrConfigNotFound +:+ ": " +:+
             pair_text applicationName configName) ErrConfigNotFound.

(** [GetConfig] returns from inside its loop at the first row. *)
Definition GetConfig (r : Repository) (applicationName configName : string)
  : string * option error :=
  match db_Query (db r) (SelectConfigurationValue applicationName configName) with
  | (_, Some err) =>
      ("", Some (Errorf_w ("cannot get configuration from database: " +:+
                   pair_text applicationName configName +:+ " - ") err))
  | (rows, None) =>
      match rows with
      | r0 :: _ =>
          match Scan1 r0 with
          | (_, Some err) =>
              ("", Some (Errorf_w
                   ("cannot scan configuration value from database: " +:+
                    pair_text applicationName configName +:+ " - ") err))
          | (value, None) => (value, None)
          end
      | [] => ("", Some (not_found applicationName configName))
      end
  end.

Section Writes.

Context {L : LikeOperator}.

Definition MustRegisterApplication (r : Repository) (applicationName : string)
  : Repository * option error :=
  let '(d, _, err) := db_Exec (db r) (InsertApplication applicationName) in
  (mkRepository d, err).

Definition RegisterApplication (r : Repository) (applicationName : string)
  : Repository * option error :=
  let '(d, _, err) :=
    db_Exec (db r) (InsertApplicationDoNothing applicationName) in
  (mkRepository d, err).

Definition UpsertConfig (r : Repository)
    (applicationName configName configValue : string)
  : Repository * option error :=
  let '(d, _, err) :=
    db_Exec (db r)
      (UpsertConfiguration applicationName configName configValue) in
  (mkRepository d, err).

(** The error of [DeleteConfig] when the statement touched no row. *)
Definition no_rows_affected (numRows : Z) : error :=
  errorString ("unexpected number of affected rows: " +:+ fmt_d numRows).

Definition DeleteConfig (r : Repository) (applicationName configName : string)
    (likePattern : bool) : Repository * option error :=
  let query :=
    if likePattern then DeleteConfigurationLike applicationName configName
    else DeleteConfigurationEq applicationName configName in
  let '(d, result, err) := db_Exec (db r) query in
  match err with
  | Some err =>
      (mkRepository d,
       Some (Errorf_w ("cannot delete a specific config " +:+
                       pair_text applicationName configName +:+ ": ") err))
  | None =>
      let numRows := rowsAffected result in
      if (numRows =? 0)%Z
      then (mkRepository d, Some (no_rows_affected numRows))
      else (mkRepository d, None)
  end.

End Writes.

(** [DefaultConfigurationFile]: the two results of [os.UserHomeDir] are the
    input, [path_Join] is the standard library's [path.Join] on two
    elements. *)
Definition DefaultConfigurationFile (path_Join : string → string → string)
    (UserHomeDir : string * option error) : string :=
  let '(home, err) := UserHomeDir in
  match err with
  | Some _ => "/.config.db"
  | None => path_Join home ".config.db"
  end.

(** ** An engine to run examples on *)

Definition to_lower (c : ascii) : ascii :=
  let n := nat_of_ascii c in
  if (65 <=? n)%nat && (n <=? 90)%nat then ascii_of_nat (n + 32) else c.

(** LIKE on ASCII text: [%] stands for any run of characters, [_] for any
    one character, and letters are compared without regard to case. *)
Fixpoint ascii_like (pattern subject : string) : bool :=
  match pattern with
  | EmptyString =>
      match subject with EmptyString => true | String _ _ => false end
  | String c pattern' =>
      if Ascii.eqb c "%"%char
      then (fix any (s : string) : bool :=
              ascii_like pattern' s ||
              match s with
              | EmptyString => false
              | String _ s' => any s'
              end) subject
      else match subject with
           | EmptyString => false
           | String c2 subject' =>
               (Ascii.eqb c "_"%char || Ascii.eqb (to_lower c) (to_lower c2))
               && ascii_like pattern' subject'
           end
  end.

(** SQLite's default limit on the length of a LIKE pattern, in bytes. *)
Definition SQLITE_MAX_LIKE_PATTERN_LENGTH : N := 50000.

Definition pattern_too_long (pattern : string) : bool :=
  (SQLITE_MAX_LIKE_PATTERN_LENGTH <? N.of_nat (String.length pattern))%N.

Definition ascii_like_error (pattern : string) : option (ErrNo * string) :=
  if pattern_too_long pattern
  then Some (ErrError, "LIKE or GLOB pattern too complex")
  else None.

Definition ascii_like_bounded (pattern subject : string) : bool :=
  if pattern_too_long pattern then false else ascii_like pattern subject.

#[global] Instance ascii_engine : LikeOperator.
Proof.
  refine {| like := ascii_like_bounded; like_error := ascii_like_error |}.
  intros pattern subject. unfold ascii_like_error, ascii_like_bounded.
  destruct (pattern_too_long pattern); [done|]. by intros [? ?].
Defined.

(** A pattern of 50,001 bytes. *)
Definition long_pattern : string :=
  N.iter 50001 (String "%"%char) EmptyString.

(** [path.Join] on two elements that need no cleaning. *)
Definition join_slash (dir file : string) : string := dir +:+ "/" +:+ file.

(** ** Calls and reachable databases *)

Inductive call :=
| CallMustRegisterApplication (applicationName : string)
| CallRegisterApplication (applicationName : string)
| CallUpsertConfig (applicationName configName configValue : string)
| CallDeleteConfig (applicationName configName : string) (likePattern : bool).

Definition run_call {L : LikeOperator} (r : Repository) (c : call)
  : Repository * option error :=
  match c with
  | CallMustRegisterApplication a => MustRegisterApplication r a
  | CallRegisterApplication a => RegisterApplication r a
  | CallUpsertConfig a k v => UpsertConfig r a k v
  | CallDeleteConfig a k p => DeleteConfig r a k p
  end.

(** The repository after a sequence of calls, whatever each returned. *)
Definition run_calls {L : LikeOperator} (r : Repository) (cs : list call)
  : Repository :=
  foldl (λ r c, (run_call r c).1) r cs.

(** [n] calls of [RegisterApplication] with one name: the repository after
    them and what each returned. *)
Fixpoint RegisterApplication_times {L : LikeOperator} (n : nat)
    (r : Repository) (applicationName : string)
  : Repository * list (option error) :=
  match n with
  | O => (r, [])
  | S n' =>
      let '(r1, err) := RegisterApplication r applicationName in
      let '(r2, errs) := RegisterApplication_times n' r1 applicationName in
      (r2, err :: errs)
  end.

(** The configuration rows of an application. *)
Definition entries_of (a : string) (d : DB) : list configuration :=
  filter (λ c, application_name c = a) (configurations d).

(** The specification's kinds of error that the repository calls produce. *)
Inductive kind := QueryFailure | NotFound | NoRowsAffected.

Definition kind_of (e : error) : kind :=
  if errors_Is e ErrConfigNotFound then NotFound
  else match e with
       | errorString s =>
           if decide (s = "unexpected number of affected rows: 0")
           then NoRowsAffected else QueryFailure
       | _ => QueryFailure
       end.

(** The rows that [DeleteConfig] selects: by pattern or by name. *)
Definition selects {L : LikeOperator} (a k : string) (likePattern : bool)
    (c : configuration) : Prop :=
  if likePattern then like_key a k c else has_key a k c.

#[global] Instance selects_dec {L : LikeOperator} a k p c :
  Decision (selects a k p c).
Proof. unfold selects. destruct p; apply _. Defined.

(** The engine error that meets a [DeleteConfig] call: only a call with a
    pattern sends a LIKE. *)
Definition refused {L : LikeOperator} (a k : string) (likePattern : bool)
    (d : DB) : option (ErrNo * string) :=
  if likePattern then like_refused a k d else None.

(** How many rows of [configurations] a call has removed. *)
Definition rows_deleted (before after : Repository) : nat :=
  length (configurations (db before)) - length (configurations (db after)).

(** How often a name occurs in a listing. *)
Definition occurrences (a : string) (l : list string) : nat :=
  length (filter (λ x, x = a) l).

(** The name occurs in the store: it is registered, or configuration rows
    carry it. *)
Definition known (d : DB) (a : string) : Prop :=
  a ∈ applications d ∨ entries_of a d ≠ [].

#[global] Instance schema_ok_dec d : Decision (schema_ok d).
Proof. unfold schema_ok. apply _. Defined.

(** A small store for the examples. *)
Definition svc_repo : Repository :=
  mkRepository
    (mkDB ["svc"; "web"]
       [Configuration "svc" "timeout" "30";
        Configuration "svc" "retries" "3";
        Configuration "web" "timeout" "5"]).

(** ** The command line ([cmd/configlite/main.go])

    A run of the program is modelled from the parsed command on: the parsing
    by [kong] is not part of it.  [configlite.New] opens the database file
    and calls [runMigrations]; what it returned, the repository or the
    error, is the input [opened] of every command. *)

(** What the commands take from Go's library: [json.MarshalIndent] with
    the empty prefix and four spaces, and the order in which a [range] loop
    visits a map, of which Go fixes only that each entry comes once. *)
Class Runtime := {
  json_MarshalIndent : gmap string string → string * option error;
  range_order : gmap string string → list (string * string);
  range_order_perm : ∀ m, range_order m ≡ₚ map_to_list m
}.

Definition newline : string := String "010"%char EmptyString.

(** [fmt.Println(a)]. *)
Definition Println1 (a : string) : string := a +:+ newline.

(** [fmt.Println(k, v)]: the operands are separated by a space. *)
Definition Println2 (k v : string) : string := k +:+ " " +:+ v +:+ newline.

(** [fmt.Sprint(text, err)] as [log.Fatal] formats its operands: no space
    is put after an operand that is a string. *)
Definition Sprint2 (text : string) (err : error) : string :=
  text +:+ Error err.

(** [GetRepo]: the repository, or the text that [log.Fatal] logs before it
    ends the process. *)
Definition GetRepo (opened : Repository + error) : Repository + string :=
  match opened with
  | inl repo => inl repo
  | inr err => inr (Sprint2 "cannot open configuration database" err)
  end.

(** [ListAppCmd.Run]: what it printed, one element for each [Println], and
    what it returned. *)
Definition ListAppCmd_Run (opened : Repository + error)
  : list string * option error :=
  match opened with
  | inr err =>
      ([], Some (Errorf_w "cannot open configuration database: " err))
  | inl repo =>
      match GetApps repo with
      | (_, Some err) =>
          ([], Some (Errorf_w "cannot list registered applications: " err))
      | (apps, None) => (Println1 <$> apps, None)
      end
  end.

Definition ListConfigsCmd_Run {R : Runtime} (opened : Repository + error)
    (Format Application : string) : list string * option error :=
  match opened with
  | inr err =>
      ([], Some (Errorf_w "cannot open configuration database: " err))
  | inl repo =>
      match GetConfigs repo Application with
      | (_, Some err) =>
          ([], Some (Errorf_w ("cannot get configuration for application "
                                 +:+ Application +:+ ": ") err))
      | (configs, None) =>
          if decide (Format = "json") then
            match json_MarshalIndent configs with
            | (_, Some err) =>
                ([], Some (Errorf_w "json formatting configs: " err))
            | (jsonConfig, None) => ([Println1 jsonConfig], None)
            end
          else if decide (Format = "text") then
            ((λ kv, Println2 kv.1 kv.2) <$> range_order configs, None)
          else
            ([], Some (errorString
                   ("cannot list configs for application: unknow format "
                      +:+ Format)))
      end
  end.

(** [UpsertConfigCmd.Run] and [DeleteConfigCmd.Run]: the repository after
    the call and the error returned, or the text logged by the [log.Fatal]
    of [GetRepo]. *)
Definition UpsertConfigCmd_Run {L : LikeOperator}
    (opened : Repository + error) (Application Configuration Value : string)
  : Repository * option error + string :=
  match GetRepo opened with
  | inr fatal => inr fatal
  | inl repo => inl (UpsertConfig repo Application Configuration Value)
  end.

Definition DeleteConfigCmd_Run {L : LikeOperator}
    (opened : Repository + error) (LikePattern : bool)
    (Application Configuration : string)
  : Repository * option error + string :=
  match GetRepo opened with
  | inr fatal => inr fatal
  | inl repo =>
      inl (DeleteConfig repo Application Configuration LikePattern)
  end.

(** The command that [kong] has selected, with its arguments. *)
Inductive Cmd :=
| ListApp
| ListConfigs (Format Application : string)
| UpsertConfigC (Application Configuration Value : string)
| DeleteConfigC (LikePattern : bool) (Application Configuration : string).

(** What a run leaves: the standard output, the text logged by
    [log.Fatal] if any (without the date that the logger puts before it),
    the exit status, and the repository if it was opened. *)
Record process := mkProcess {
  stdout : list string;
  logged : option string;
  status : Z;
  repository : option Repository
}.

(** The end of [main]: [ctx.Run] has returned [err]. *)
Definition main_end (out : list string) (err : option error)
    (repo : option Repository) : process :=
  match err with
  | Some err => mkProcess out (Some (Sprint2 "cannot run command" err)) 1 repo
  | None => mkProcess out None 0 repo
  end.

Definition opened_repository (opened : Repository + error)
  : option Repository :=
  match opened with inl repo => Some repo | inr _ => None end.

(** [main] from [ctx.Run] on. *)
Definition main {L : LikeOperator} {R : Runtime}
    (opened : Repository + error) (cmd : Cmd) : process :=
  match cmd with
  | ListApp =>
      let '(out, err) := ListAppCmd_Run opened in
      main_end out err (opened_repository opened)
  | ListConfigs f a =>
      let '(out, err) := ListConfigsCmd_Run opened f a in
      main_end out err (opened_repository opened)
  | UpsertConfigC a c v =>
      match UpsertConfigCmd_Run opened a c v with
      | inr fatal => mkProcess [] (Some fatal) 1 None
      | inl (repo, err) => main_end [] err (Some repo)
      end
  | DeleteConfigC p a c =>
      match DeleteConfigCmd_Run opened p a c with
      | inr fatal => mkProcess [] (Some fatal) 1 None
      | inl (repo, err) => main_end [] err (Some repo)
      end
  end.

(** The text on standard output: what the calls of [Println] wrote, one
    after the other. *)
Definition output_text (out : list string) : string :=
  foldr String.append EmptyString out.

(** A string without the newline byte. *)
Fixpoint newline_free (s : string) : bool :=
  match s with
  | EmptyString => true
  | String c s' => negb (Ascii.eqb c "010"%char) && newline_free s'
  end.

(** The lines of a text: each newline ends the line gathered in [cur], and
    bytes after the last newline make a last line. *)
Fixpoint lines_from (cur s : string) : list string :=
  match s with
  | EmptyString =>
      match cur with EmptyString => [] | String _ _ => [cur] end
  | String c s' =>
      if Ascii.eqb c "010"%char then cur :: lines_from EmptyString s'
      else lines_from (cur +:+ String c EmptyString) s'
  end.

Definition lines (s : string) : list string := lines_from EmptyString s.

(** A runtime to run examples on: the map is visited in the order of
    [map_to_list], and the marshalling writes what Go writes for names and
    values that need no escaping, up to the order of the entries. *)
Definition quote : string := String "034"%char EmptyString.

Definition json_entry (kv : string * string) : string :=
  "    " +:+ quote +:+ kv.1 +:+ quote +:+ ": " +:+ quote +:+ kv.2 +:+ quote.

Definition plain_json (m : gmap string string) : string * option error :=
  match map_to_list m with
  | [] => ("{}", None)
  | kv :: kvs =>
      ("{" +:+ newline +:+ json_entry kv +:+
       foldr (λ kv acc, "," +:+ newline +:+ json_entry kv +:+ acc)
         (newline +:+ "}") kvs, None)
  end.

#[global] Instance example_runtime : Runtime :=
  {| json_MarshalIndent := plain_json;
     range_order := map_to_list;
     range_order_perm := λ m, reflexivity (map_to_list m) |}.

(** * Properties *)

Example ascii_like_prefix :
  ascii_like "db.%" "DB.host" = true ∧ ascii_like "db.%" "cache.ttl" = false
  ∧ ascii_like "a_c" "abc" = true ∧ ascii_like "a_c" "ac" = false.
Proof. repeat split; reflexivity. Qed.

Example fmt_d_zero : fmt_d 0 = "0".
Proof. reflexivity. Qed.

(** ** Reading the tables *)

Lemma GetApps_rows_names (names apps : list string) :
  GetApps_rows ((λ name, [name]) <$> names) apps = (apps ++ names, None).
Proof.
  revert apps. induction names as [|n names IH]; intros apps; simpl.
  - by rewrite app_nil_r.
  - rewrite IH. by rewrite <- app_assoc.
Qed.

Lemma GetApps_applications (r : Repository) :
  GetApps r = (applications (db r), None).
Proof. unfold GetApps. simpl. apply GetApps_rows_names. Qed.

Lemma GetConfig_rows (r : Repository) (a k : string) :
  GetConfig r a k =
  match filter (has_key a k) (configurations (db r)) with
  | c :: _ => (configuration_value c, None)
  | [] => ("", Some (not_found a k))
  end.
Proof.
  unfold GetConfig. simpl.
  by destruct (filter (has_key a k) (configurations (db r))).
Qed.

Section Filter.

Context {A : Type} (P : A → Prop) `{!∀ x, Decision (P x)}.

Lemma filter_none (l : list A) :
  (∀ x, x ∈ l → ¬ P x) → filter P l = [].
Proof.
  induction l as [|x l IH]; intros Hall; [done|].
  rewrite filter_cons_False.
  - apply IH. intros y Hy. apply Hall. by right.
  - apply Hall. by left.
Qed.

Lemma filter_id (l : list A) :
  (∀ x, x ∈ l → P x) → filter P l = l.
Proof.
  induction l as [|x l IH]; intros Hall; [done|].
  rewrite filter_cons_True.
  - f_equal. apply IH. intros y Hy. apply Hall. by right.
  - apply Hall. by left.
Qed.

Lemma filter_nil_Forall (l : list A) :
  filter P l = [] ↔ Forall (λ x, ¬ P x) l.
Proof.
  rewrite Forall_forall. split.
  - intros Hf x Hx HP. by eapply filter_nil_not_elem_of.
  - apply filter_none.
Qed.

Lemma filter_cons_Exists (l : list A) :
  filter P l ≠ [] ↔ Exists P l.
Proof.
  rewrite Exists_exists. split.
  - intros Hne. destruct (filter P l) as [|x f] eqn:Hf; [done|].
    assert (x ∈ filter P l) as Hx by (rewrite Hf; by left).
    apply list_elem_of_filter in Hx as [HP Hx]. by exists x.
  - intros (x & Hx & HP) Hf. by eapply filter_nil_not_elem_of.
Qed.

Lemma filter_length_split (l : list A) :
  length (filter P l) + length (filter (λ x, ¬ P x) l) = length l.
Proof.
  induction l as [|x l IH]; [done|].
  rewrite !filter_cons. destruct (decide (P x)) as [Hx|Hx].
  - destruct (decide (¬ P x)); [done|]. simpl. lia.
  - destruct (decide (¬ P x)); [|done]. simpl. lia.
Qed.

End Filter.

Lemma has_key_key (a k : string) (c : configuration) :
  has_key a k c ↔ key c = (a, k).
Proof.
  unfold has_key, key. split.
  - by intros [-> ->].
  - intros [= -> ->]. done.
Qed.

Lemma filter_has_key_unique (l : list configuration) (c : configuration) :
  NoDup (key <$> l) → c ∈ l →
  filter (has_key (application_name c) (configuration_name c)) l = [c].
Proof.
  induction l as [|x l IH]; intros Hnd Hin.
  - by apply elem_of_nil in Hin.
  - rewrite fmap_cons in Hnd. apply NoDup_cons in Hnd as [Hx Hnd].
    apply elem_of_cons in Hin as [->|Hin].
    + rewrite filter_cons_True by done. f_equal.
      apply filter_none. intros y Hy Hk. apply Hx.
      apply has_key_key in Hk. rewrite <- Hk at 1.
      by apply list_elem_of_fmap_2.
    + rewrite filter_cons_False; [by apply IH|].
      intros Hk. apply Hx. apply has_key_key in Hk.
      change (application_name c, configuration_name c) with (key c) in Hk.
      rewrite Hk. by apply list_elem_of_fmap_2.
Qed.

Lemma GetConfig_not_found_text (a k : string) :
  Error (not_found a k) =
  "configuration value not found: (" +:+ a +:+ ", " +:+ k +:+ ")".
Proof. reflexivity. Qed.

Lemma not_found_is (a k : string) :
  errors_Is (not_found a k) ErrConfigNotFound = true.
Proof. reflexivity. Qed.

(** ** The upsert statement *)

Lemma upsert_rows_keys (a k v : string) (l : list configuration) :
  Exists (has_key a k) l →
  key <$> upsert_rows a k v l = key <$> l.
Proof.
  intros Hex. unfold upsert_rows. rewrite decide_True by done.
  rewrite <- list_fmap_compose. apply list_fmap_ext.
  intros i c _. simpl. by case_decide.
Qed.

Lemma upsert_rows_NoDup (a k v : string) (l : list configuration) :
  NoDup (key <$> l) → NoDup (key <$> upsert_rows a k v l).
Proof.
  intros Hnd. destruct (decide (Exists (has_key a k) l)) as [Hex|Hex].
  - by rewrite upsert_rows_keys.
  - unfold upsert_rows. rewrite decide_False by done.
    rewrite fmap_app. apply NoDup_app. split; [done|]. split.
    + intros x Hx Hx'. apply list_elem_of_singleton in Hx'. subst x.
      apply list_elem_of_fmap in Hx as (c & Hc & Hin).
      apply Hex, Exists_exists. exists c. split; [done|].
      apply has_key_key. by rewrite <- Hc.
    + apply NoDup_singleton.
Qed.

Lemma upsert_rows_has_key (a k v : string) (l : list configuration)
    (c : configuration) :
  c ∈ upsert_rows a k v l → has_key a k c → c = Configuration a k v.
Proof.
  unfold upsert_rows. case_decide as Hex; intros Hin Hk.
  - apply list_elem_of_fmap in Hin as (x & -> & Hx).
    case_decide as Hkx.
    + destruct Hkx as [<- <-]. done.
    + done.
  - apply elem_of_app in Hin as [Hin|Hin].
    + exfalso. apply Hex, Exists_exists. by exists c.
    + by apply list_elem_of_singleton in Hin.
Qed.

Lemma upsert_rows_elem (a k v : string) (l : list configuration) :
  Configuration a k v ∈ upsert_rows a k v l.
Proof.
  unfold upsert_rows. case_decide as Hex.
  - apply Exists_exists in Hex as (c & Hin & Hk).
    apply list_elem_of_fmap. exists c. split; [|done].
    rewrite decide_True by done. by destruct Hk as [<- <-].
  - apply elem_of_app. right. by apply list_elem_of_singleton.
Qed.

Lemma upsert_rows_other (a k v : string) (l : list configuration)
    (c : configuration) :
  ¬ has_key a k c → c ∈ upsert_rows a k v l ↔ c ∈ l.
Proof.
  intros Hk. unfold upsert_rows. case_decide as Hex.
  - rewrite list_elem_of_fmap. split.
    + intros (x & -> & Hx). case_decide as Hkx; [|done].
      exfalso. apply Hk. by destruct Hkx.
    + intros Hin. exists c. by rewrite decide_False.
  - rewrite elem_of_app, list_elem_of_singleton. split; [|by left].
    intros [Hin| ->]; [done|]. exfalso. by apply Hk.
Qed.

Lemma upsert_rows_first (a k v : string) (l : list configuration) :
  ∃ rest, filter (has_key a k) (upsert_rows a k v l)
          = Configuration a k v :: rest.
Proof.
  destruct (filter (has_key a k) (upsert_rows a k v l)) as [|c rest] eqn:Hf.
  - exfalso. eapply filter_nil_not_elem_of; [exact Hf| |apply upsert_rows_elem].
    done.
  - exists rest. f_equal.
    assert (c ∈ filter (has_key a k) (upsert_rows a k v l)) as Hc
      by (rewrite Hf; by left).
    apply list_elem_of_filter in Hc as [Hk Hin].
    by eapply upsert_rows_has_key.
Qed.

Section Upsert.

Context {L : LikeOperator}.

Lemma UpsertConfig_eq (r : Repository) (a k v : string) :
  UpsertConfig r a k v =
  (mkRepository (mkDB (applications (db r))
                   (upsert_rows a k v (configurations (db r)))), None).
Proof. reflexivity. Qed.

Lemma GetConfig_UpsertConfig (r : Repository) (a k v : string) :
  GetConfig (UpsertConfig r a k v).1 a k = (v, None).
Proof.
  rewrite UpsertConfig_eq, GetConfig_rows. simpl.
  destruct (upsert_rows_first a k v (configurations (db r))) as [rest ->].
  done.
Qed.

End Upsert.

(** ** The map built by [GetConfigs] *)

Lemma NoDup_fmap_filter {A B : Type} (f : A → B) (P : A → Prop)
    `{!∀ x, Decision (P x)} (l : list A) :
  NoDup (f <$> l) → NoDup (f <$> filter P l).
Proof.
  induction l as [|x l IH]; [done|].
  rewrite fmap_cons, NoDup_cons. intros [Hx Hnd].
  rewrite filter_cons. case_decide; [|by apply IH].
  rewrite fmap_cons, NoDup_cons. split; [|by apply IH].
  intros Hin. apply Hx.
  apply list_elem_of_fmap in Hin as (y & -> & Hy).
  apply list_elem_of_filter in Hy as [_ Hy]. by apply list_elem_of_fmap_2.
Qed.

Lemma NoDup_names_of_application (a : string) (l : list configuration) :
  NoDup (key <$> l) →
  NoDup (configuration_name <$> filter (λ c, application_name c = a) l).
Proof.
  induction l as [|x l IH]; [intros; constructor|].
  rewrite fmap_cons, NoDup_cons. intros [Hx Hnd].
  rewrite filter_cons. case_decide as Ha; [|by apply IH].
  rewrite fmap_cons, NoDup_cons. split; [|by apply IH].
  intros Hin. apply Hx.
  apply list_elem_of_fmap in Hin as (y & Hy & Hyin).
  apply list_elem_of_filter in Hyin as [Hya Hyin].
  apply list_elem_of_fmap. exists y. split; [|done].
  unfold key. by rewrite Hy, Ha, Hya.
Qed.

Lemma GetConfigs_rows_pairs (a : string) (cs : list configuration)
    (m : gmap string string) :
  GetConfigs_rows a
    ((λ c, [configuration_name c; configuration_value c]) <$> cs) m
  = (list_to_map
       (reverse ((λ c, (configuration_name c, configuration_value c)) <$> cs))
     ∪ m, None).
Proof.
  revert m. induction cs as [|c cs IH]; intros m.
  - simpl. by rewrite (left_id_L ∅ (∪)).
  - rewrite !fmap_cons. simpl. rewrite IH. f_equal.
    rewrite reverse_cons, list_to_map_app. simpl.
    rewrite <- (assoc_L (∪)). f_equal.
    by rewrite insert_union_singleton_l.
Qed.

Lemma GetConfigs_eq (r : Repository) (a : string) :
  GetConfigs r a =
  (list_to_map
     (reverse ((λ c, (configuration_name c, configuration_value c))
                 <$> entries_of a (db r))), None).
Proof.
  unfold GetConfigs. simpl. rewrite GetConfigs_rows_pairs.
  by rewrite (right_id_L ∅ (∪)).
Qed.

Lemma GetConfigs_lookup (r : Repository) (a k v : string) :
  schema_ok (db r) →
  (GetConfigs r a).1 !! k = Some v
  ↔ Configuration a k v ∈ configurations (db r).
Proof.
  intros [_ Hnd]. rewrite GetConfigs_eq. simpl.
  rewrite <- elem_of_list_to_map.
  - rewrite elem_of_reverse, list_elem_of_fmap. unfold entries_of. split.
    + intros (c & [= -> ->] & Hc).
      apply list_elem_of_filter in Hc as [<- Hc]. by destruct c.
    + intros Hin. exists (Configuration a k v). split; [done|].
      by apply list_elem_of_filter.
  - rewrite fmap_reverse, reverse_Permutation.
    rewrite <- list_fmap_compose.
    by apply NoDup_names_of_application.
Qed.

Lemma GetConfigs_no_entries (r : Repository) (a : string) :
  entries_of a (db r) = [] → GetConfigs r a = (∅, None).
Proof. intros Hnone. by rewrite GetConfigs_eq, Hnone. Qed.

(** ** Registration *)

Lemma occurrences_NoDup (a : string) (l : list string) :
  NoDup l → a ∈ l → occurrences a l = 1.
Proof.
  unfold occurrences. induction l as [|x l IH]; intros Hnd Hin.
  - by apply elem_of_nil in Hin.
  - apply NoDup_cons in Hnd as [Hx Hnd]. rewrite filter_cons.
    case_decide as Hxa.
    + subst x. rewrite filter_none; [done|]. intros y Hy ->. done.
    + apply elem_of_cons in Hin as [->|Hin]; [done|]. by apply IH.
Qed.

Section Register.

Context {L : LikeOperator}.

Lemma RegisterApplication_eq (r : Repository) (a : string) :
  RegisterApplication r a =
  (mkRepository
     (mkDB (if decide (a ∈ applications (db r)) then applications (db r)
            else applications (db r) ++ [a])
        (configurations (db r))), None).
Proof.
  unfold RegisterApplication. simpl. case_decide; [|done].
  by destruct r as [[apps confs]].
Qed.

Lemma RegisterApplication_registered (r : Repository) (a : string) :
  a ∈ applications (db r) → RegisterApplication r a = (r, None).
Proof.
  intros Hin. rewrite RegisterApplication_eq, decide_True by done.
  by destruct r as [[apps confs]].
Qed.

Lemma RegisterApplication_registers (r : Repository) (a : string) :
  a ∈ applications (db (RegisterApplication r a).1).
Proof.
  rewrite RegisterApplication_eq. simpl. case_decide; [done|].
  apply elem_of_app. right. by apply list_elem_of_singleton.
Qed.

Lemma RegisterApplication_times_registered (n : nat) (r : Repository)
    (a : string) :
  a ∈ applications (db r) →
  RegisterApplication_times n r a = (r, replicate n None).
Proof.
  intros Hin. induction n as [|n IH]; [done|].
  simpl. rewrite RegisterApplication_registered by done. by rewrite IH.
Qed.

Lemma RegisterApplication_times_S (n : nat) (r : Repository) (a : string) :
  RegisterApplication_times (S n) r a =
  ((RegisterApplication r a).1, replicate (S n) None).
Proof.
  simpl. pose proof (RegisterApplication_registers r a) as Hin.
  rewrite RegisterApplication_eq in *. simpl in *.
  by rewrite RegisterApplication_times_registered.
Qed.

Lemma MustRegisterApplication_eq (r : Repository) (a : string) :
  MustRegisterApplication r a =
  if decide (a ∈ applications (db r))
  then (r, Some (sqlite3Error ErrConstraint
                   "UNIQUE constraint failed: applications.name"))
  else (mkRepository
          (mkDB (applications (db r) ++ [a]) (configurations (db r))), None).
Proof.
  unfold MustRegisterApplication. simpl. case_decide; [|done].
  by destruct r as [[apps confs]].
Qed.

End Register.

(** ** Deletion *)

Lemma filter_filter_implied {A : Type} (P Q : A → Prop)
    `{!∀ x, Decision (P x)} `{!∀ x, Decision (Q x)} (l : list A) :
  (∀ x, x ∈ l → P x → Q x) → filter P (filter Q l) = filter P l.
Proof.
  induction l as [|x l IH]; intros Himp; [done|].
  assert (filter P (filter Q l) = filter P l) as IH'
    by (apply IH; intros y Hy; apply Himp; by right).
  rewrite (filter_cons Q). case_decide as HQ.
  - rewrite !filter_cons. by rewrite IH'.
  - rewrite IH'. rewrite filter_cons_False; [done|].
    intros HP. apply HQ, Himp; [by left|done].
Qed.

Lemma filter_ext_in {A : Type} (P Q : A → Prop)
    `{!∀ x, Decision (P x)} `{!∀ x, Decision (Q x)} (l : list A) :
  (∀ x, x ∈ l → P x ↔ Q x) → filter P l = filter Q l.
Proof.
  induction l as [|x l IH]; intros Hpq; [done|].
  rewrite !filter_cons.
  assert (filter P l = filter Q l) as ->
    by (apply IH; intros y Hy; apply Hpq; by right).
  assert (P x ↔ Q x) as Hx by (apply Hpq; by left).
  destruct (decide (P x)), (decide (Q x)); tauto.
Qed.

Section Delete.

Context {L : LikeOperator}.

Lemma Repository_eta (r : Repository) :
  mkRepository (mkDB (applications (db r)) (configurations (db r))) = r.
Proof. by destruct r as [[apps confs]]. Qed.

Lemma refused_selects (a k : string) (p : bool) (d : DB)
    (c : configuration) :
  is_Some (refused a k p d) → ¬ selects a k p c.
Proof.
  destruct p; [|by intros [? ?]]. unfold refused, like_refused, selects.
  destruct (like_error k) as [e|] eqn:He; [|by intros [? ?]].
  intros _ [_ Hl]. rewrite like_error_false in Hl; [done|].
  by rewrite He.
Qed.

Lemma DeleteConfig_eq (r : Repository) (a k : string) (p : bool) :
  DeleteConfig r a k p =
  (mkRepository
     (mkDB (applications (db r))
        (filter (λ c, ¬ selects a k p c) (configurations (db r)))),
   match refused a k p (db r) with
   | Some (code, msg) =>
       Some (Errorf_w ("cannot delete a specific config "
                         +:+ pair_text a k +:+ ": ") (sqlite3Error code msg))
   | None =>
       if decide (filter (selects a k p) (configurations (db r)) = [])
       then Some (no_rows_affected 0) else None
   end).
Proof.
  unfold DeleteConfig. destruct p; cbn [db_Exec refused].
  - destruct (like_refused a k (db r)) as [[code msg]|] eqn:Hr.
    + f_equal. rewrite filter_id; [by destruct r as [[apps confs]]|].
      intros c _. apply (refused_selects a k true (db r)).
      unfold refused. by rewrite Hr.
    + cbn [rowsAffected]. unfold selects.
      destruct (filter (like_key a k) (configurations (db r)))
        as [|c l] eqn:Hf.
      * by rewrite decide_True by exact Hf.
      * rewrite decide_False; [done|]. intros Heq.
        change (filter (like_key a k) (configurations (db r)) = []) in Heq.
        congruence.
  - cbn [rowsAffected]. unfold selects.
    destruct (filter (has_key a k) (configurations (db r))) as [|c l] eqn:Hf.
    + by rewrite decide_True by done.
    + by rewrite decide_False by done.
Qed.

Lemma DeleteConfig_exact_eq (r : Repository) (a k : string) :
  DeleteConfig r a k false =
  (mkRepository
     (mkDB (applications (db r))
        (filter (λ c, ¬ selects a k false c) (configurations (db r)))),
   if decide (filter (selects a k false) (configurations (db r)) = [])
   then Some (no_rows_affected 0) else None).
Proof. by rewrite DeleteConfig_eq. Qed.

Lemma DeleteConfig_failed_same (r : Repository) (a k : string) (p : bool) :
  (DeleteConfig r a k p).2 ≠ None → (DeleteConfig r a k p).1 = r.
Proof.
  rewrite DeleteConfig_eq. cbn [fst snd]. intros Herr.
  rewrite filter_id; [apply Repository_eta|]. intros c Hc.
  destruct (refused a k p (db r)) as [[code msg]|] eqn:Hr.
  - apply (refused_selects a k p (db r)). rewrite Hr. by eexists.
  - case_decide as Hf; [|done]. intros Hsel.
    by eapply filter_nil_not_elem_of.
Qed.

Lemma refused_after_DeleteConfig (r : Repository) (a k : string) (p : bool) :
  refused a k p (db r) = None →
  refused a k p (db (DeleteConfig r a k p).1) = None.
Proof.
  rewrite DeleteConfig_eq. cbn [fst db configurations].
  destruct p; [|done]. unfold refused, like_refused.
  destruct (like_error k) as [e|]; [|done].
  case_decide as Hex; [done|]. intros _. rewrite decide_False; [done|].
  intros Hex'. apply Hex. apply Exists_exists in Hex' as (c & Hc & Ha).
  apply list_elem_of_filter in Hc as [_ Hc].
  apply Exists_exists. by exists c.
Qed.

Lemma DeleteConfig_nil_iff (r : Repository) (a k : string) (p : bool) :
  (DeleteConfig r a k p).2 = None
  ↔ Exists (selects a k p) (configurations (db r)).
Proof.
  rewrite <- filter_cons_Exists, DeleteConfig_eq. cbn [snd].
  destruct (refused a k p (db r)) as [[code msg]|] eqn:Hr.
  - split; [done|]. intros Hne. exfalso. apply Hne, filter_none.
    intros c _. apply (refused_selects a k p (db r)). rewrite Hr. by eexists.
  - by case_decide.
Qed.

Lemma rows_deleted_DeleteConfig (r : Repository) (a k : string) (p : bool) :
  rows_deleted r (DeleteConfig r a k p).1
  = length (filter (selects a k p) (configurations (db r))).
Proof.
  rewrite DeleteConfig_eq. unfold rows_deleted. simpl.
  pose proof (filter_length_split (selects a k p) (configurations (db r))).
  lia.
Qed.

Lemma GetConfig_DeleteConfig_unselected (r : Repository) (a k : string)
    (p : bool) (a' k' : string) :
  (∀ c, has_key a' k' c → ¬ selects a k p c) →
  GetConfig (DeleteConfig r a k p).1 a' k' = GetConfig r a' k'.
Proof.
  intros Hsel. rewrite DeleteConfig_eq, !GetConfig_rows. simpl.
  rewrite filter_filter_implied; [done|]. intros c _. apply Hsel.
Qed.

Lemma GetConfig_DeleteConfig_selected (r : Repository) (a k : string)
    (p : bool) (a' k' : string) :
  (∀ c, has_key a' k' c → selects a k p c) →
  GetConfig (DeleteConfig r a k p).1 a' k' = ("", Some (not_found a' k')).
Proof.
  intros Hsel. rewrite DeleteConfig_eq, GetConfig_rows. simpl.
  rewrite filter_none; [done|].
  intros c Hc Hk. apply list_elem_of_filter in Hc as [Hns _].
  by apply Hns, Hsel.
Qed.

Lemma GetConfigs_DeleteConfig_other (r : Repository) (a k : string)
    (p : bool) (a' : string) :
  a' ≠ a → GetConfigs (DeleteConfig r a k p).1 a' = GetConfigs r a'.
Proof.
  intros Hne. rewrite !GetConfigs_eq, DeleteConfig_eq. unfold entries_of.
  simpl. rewrite filter_filter_implied; [done|].
  intros c _ Hc Hsel. apply Hne. rewrite <- Hc.
  unfold selects, like_key, has_key in Hsel. destruct p; by destruct Hsel.
Qed.

End Delete.

(** ** The schema holds in every reachable database *)

Section Invariant.

Context {L : LikeOperator}.

Lemma schema_ok_run_call (r : Repository) (c : call) :
  schema_ok (db r) → schema_ok (db (run_call r c).1).
Proof.
  intros [Happs Hconfs]. destruct c as [a|a|a k v|a k p]; unfold run_call.
  - rewrite MustRegisterApplication_eq. case_decide as Hin; [done|].
    split; [|done]. simpl. apply NoDup_app. split; [done|].
    split; [|apply NoDup_singleton].
    intros x Hx Hx'. apply list_elem_of_singleton in Hx'. by subst x.
  - rewrite RegisterApplication_eq. simpl. split; [|done]. simpl.
    case_decide as Hin; [done|]. apply NoDup_app. split; [done|].
    split; [|apply NoDup_singleton].
    intros x Hx Hx'. apply list_elem_of_singleton in Hx'. by subst x.
  - rewrite UpsertConfig_eq. simpl. split; [done|]. simpl.
    by apply upsert_rows_NoDup.
  - rewrite DeleteConfig_eq. simpl. split; [done|]. simpl.
    by apply NoDup_fmap_filter.
Qed.

Lemma schema_ok_run_calls (cs : list call) (r : Repository) :
  schema_ok (db r) → schema_ok (db (run_calls r cs)).
Proof.
  revert r. induction cs as [|c cs IH]; intros r Hok; [done|].
  unfold run_calls. simpl. apply IH. by apply schema_ok_run_call.
Qed.

Lemma schema_ok_reachable (cs : list call) :
  schema_ok (db (run_calls New_fresh cs)).
Proof. apply schema_ok_run_calls. split; constructor. Qed.

End Invariant.

(** * What the specification states of the repository *)

(** C1.  In a database under the schema, [UpsertConfig A K V1] followed by
    [UpsertConfig A K V2] both succeed; afterwards [GetConfig A K] returns
    [V2], the map of [GetConfigs A] binds [K] to [V2] and to nothing else,
    the table holds exactly one row for the pair, and the second call has
    not added a row. *)
Theorem UpsertConfig_twice {L : LikeOperator} (r : Repository)
    (A K V1 V2 : string) :
  schema_ok (db r) →
  let r1 := (UpsertConfig r A K V1).1 in
  let r2 := (UpsertConfig r1 A K V2).1 in
  (UpsertConfig r A K V1).2 = None
  ∧ (UpsertConfig r1 A K V2).2 = None
  ∧ GetConfig r2 A K = (V2, None)
  ∧ (GetConfigs r2 A).2 = None
  ∧ (∀ V, (GetConfigs r2 A).1 !! K = Some V ↔ V = V2)
  ∧ length (filter (has_key A K) (configurations (db r2))) = 1
  ∧ length (configurations (db r2)) = length (configurations (db r1)).
Proof.
  intros Hok r1 r2.
  assert (schema_ok (db r1)) as Hok1
    by apply (schema_ok_run_call r (CallUpsertConfig A K V1) Hok).
  assert (schema_ok (db r2)) as Hok2
    by apply (schema_ok_run_call r1 (CallUpsertConfig A K V2) Hok1).
  assert (Configuration A K V2 ∈ configurations (db r2)) as Hin
    by apply upsert_rows_elem.
  repeat split.
  - apply GetConfig_UpsertConfig.
  - by rewrite GetConfigs_eq.
  - intros Hlook. apply GetConfigs_lookup in Hlook; [|done].
    apply upsert_rows_has_key in Hlook; [|done]. by injection Hlook.
  - intros ->. by apply GetConfigs_lookup.
  - destruct Hok2 as [_ Hnd].
    pose proof (filter_has_key_unique _ (Configuration A K V2) Hnd Hin) as Hf.
    cbn [application_name configuration_name] in Hf. by rewrite Hf.
  - subst r2. rewrite UpsertConfig_eq. simpl. unfold upsert_rows at 1.
    rewrite decide_True; [by rewrite length_fmap|].
    apply Exists_exists. exists (Configuration A K V1).
    split; [apply upsert_rows_elem|done].
Qed.

Lemma UpsertConfig_twice_witness :
  GetConfig
    (UpsertConfig (UpsertConfig svc_repo "svc" "timeout" "10").1
       "svc" "timeout" "20").1 "svc" "timeout" = ("20", None).
Proof.
  apply (UpsertConfig_twice svc_repo "svc" "timeout" "10" "20").
  apply (bool_decide_unpack _). vm_compute. exact I.
Defined.

(** C4.  In a database under the schema, [GetConfig A K] returns the value
    of the row stored for the pair with a nil error; when no row is stored
    for the pair it returns the empty string and an error that wraps
    [ErrConfigNotFound] and whose text names both [A] and [K]. *)
Theorem GetConfig_stored_or_not_found (r : Repository) (A K : string) :
  schema_ok (db r) →
  (∀ V, Configuration A K V ∈ configurations (db r) →
        GetConfig r A K = (V, None))
  ∧ ((∀ V, Configuration A K V ∉ configurations (db r)) →
     ∃ err, GetConfig r A K = ("", Some err)
            ∧ errors_Is err ErrConfigNotFound = true
            ∧ kind_of err = NotFound
            ∧ Error err =
              "configuration value not found: ("
                +:+ A +:+ ", " +:+ K +:+ ")").
Proof.
  intros [_ Hnd]. split.
  - intros V Hin. rewrite GetConfig_rows.
    pose proof (filter_has_key_unique _ (Configuration A K V) Hnd Hin) as Hf.
    cbn [application_name configuration_name] in Hf. by rewrite Hf.
  - intros Hno. exists (not_found A K). rewrite GetConfig_rows.
    rewrite filter_none; [done|].
    intros [a k v] Hc [Ha Hk]. simpl in *. subst a k. by apply (Hno v).
Qed.

Lemma GetConfig_stored_or_not_found_witness :
  GetConfig svc_repo "svc" "retries" = ("3", None).
Proof.
  apply (GetConfig_stored_or_not_found svc_repo "svc" "retries").
  - apply (bool_decide_unpack _). vm_compute. exact I.
  - apply (bool_decide_unpack _). vm_compute. exact I.
Defined.

(** C9.  [UpsertConfig A K V] succeeds for a name [A] that is not in the
    table of applications; afterwards [GetConfig A K] returns [V], and
    [GetApps] still lists the same names, [A] not among them. *)
Theorem UpsertConfig_unregistered {L : LikeOperator} (r : Repository)
    (A K V : string) :
  A ∉ applications (db r) →
  let r' := (UpsertConfig r A K V).1 in
  (UpsertConfig r A K V).2 = None
  ∧ GetConfig r' A K = (V, None)
  ∧ GetApps r' = GetApps r
  ∧ (GetApps r').2 = None
  ∧ A ∉ (GetApps r').1.
Proof.
  intros Hnot r'. repeat split.
  - apply GetConfig_UpsertConfig.
  - by rewrite !GetApps_applications.
  - by rewrite GetApps_applications.
Qed.

Lemma UpsertConfig_unregistered_witness :
  GetConfig (UpsertConfig svc_repo "batch" "size" "64").1 "batch" "size"
  = ("64", None).
Proof.
  apply (UpsertConfig_unregistered svc_repo "batch" "size" "64").
  apply (bool_decide_unpack _). vm_compute. exact I.
Defined.

(** C2, as the code has it.  [DeleteConfig A K p] deletes exactly the rows
    of [A] that [K] selects, by equality or, with [p], by LIKE.  It returns
    nil exactly when some row is selected.  It returns the error "unexpected
    number of affected rows: 0", the specification's [NoRowsAffected],
    exactly when the statement ran and no row is selected.  When the engine
    refuses the statement it returns the engine's error wrapped with both
    identifiers.  A call that returns an error has deleted nothing. *)
Theorem DeleteConfig_error_cases {L : LikeOperator} (r : Repository)
    (A K : string) (p : bool) :
  configurations (db (DeleteConfig r A K p).1)
  = filter (λ c, ¬ selects A K p c) (configurations (db r))
  ∧ rows_deleted r (DeleteConfig r A K p).1
    = length (filter (selects A K p) (configurations (db r)))
  ∧ ((DeleteConfig r A K p).2 = None
     ↔ Exists (selects A K p) (configurations (db r)))
  ∧ ((DeleteConfig r A K p).2 = Some (no_rows_affected 0)
     ↔ refused A K p (db r) = None
       ∧ Forall (λ c, ¬ selects A K p c) (configurations (db r)))
  ∧ (∀ code msg, refused A K p (db r) = Some (code, msg) →
       (DeleteConfig r A K p).2
       = Some (Errorf_w ("cannot delete a specific config "
                           +:+ pair_text A K +:+ ": ")
                 (sqlite3Error code msg)))
  ∧ ((DeleteConfig r A K p).2 ≠ None → (DeleteConfig r A K p).1 = r)
  ∧ kind_of (no_rows_affected 0) = NoRowsAffected
  ∧ Error (no_rows_affected 0) = "unexpected number of affected rows: 0".
Proof.
  assert (is_Some (refused A K p (db r)) →
          filter (selects A K p) (configurations (db r)) = []) as Href.
  { intros Hsome. apply filter_none. intros c _.
    by apply (refused_selects A K p (db r)). }
  split; [by rewrite DeleteConfig_eq|].
  split; [apply rows_deleted_DeleteConfig|].
  rewrite <- filter_cons_Exists, <- filter_nil_Forall.
  rewrite DeleteConfig_eq. cbn [fst snd].
  destruct (refused A K p (db r)) as [[code msg]|] eqn:Hr.
  - rewrite Href by (by eexists).
    split; [done|]. split; [split; [done|by intros [? _]]|].
    split; [by intros ? ? [= <- <-]|]. split; [|done].
    intros _. rewrite filter_id; [apply Repository_eta|].
    intros c _. apply (refused_selects A K p (db r)). rewrite Hr. by eexists.
  - case_decide as Hf.
    + split; [done|]. split; [done|]. split; [done|]. split; [|done].
      intros _. rewrite filter_id; [apply Repository_eta|].
      intros c Hc Hsel. by eapply filter_nil_not_elem_of.
    + split; [done|]. split; [split; [done|by intros [_ ?]]|].
      split; [done|]. split; done.
Qed.

(** C2 as the specification words it does not hold: with a pattern that
    the engine refuses and a row of the application stored, no row is
    deleted, yet the error is the engine's, wrapped, and neither the error
    of zero affected rows nor [ErrConfigNotFound]. *)
Lemma DeleteConfig_refused_pattern_counterexample :
  ¬ (∀ (L : LikeOperator) (r : Repository) (A K : string) (p : bool),
       (∃ e, (DeleteConfig r A K p).2 = Some e
             ∧ (kind_of e = NoRowsAffected ∨ kind_of e = NotFound))
       ↔ rows_deleted r (DeleteConfig r A K p).1 = 0).
Proof.
  intros Hclaim.
  destruct (Hclaim ascii_engine svc_repo "svc" long_pattern true) as [_ Hback].
  destruct Hback as (e & He & Hk); [by vm_compute|].
  assert (kind_of e = QueryFailure) as Hq.
  { revert He. rewrite DeleteConfig_eq. cbn [snd].
    assert (refused "svc" long_pattern true (db svc_repo)
            = Some (ErrError, "LIKE or GLOB pattern too complex")) as ->
      by (by vm_compute).
    by intros [= <-]. }
  rewrite Hq in Hk. by destruct Hk.
Qed.

(** C3.  [DeleteConfig A P true] leaves in [configurations] the rows that
    are not rows of [A] with a name matching [P] under the engine's LIKE, in
    their order and unchanged, and leaves [applications] alone.  So a name
    of [A] that matches is not found afterwards, and every other name of
    [A] and every entry of another application reads as before. *)
Theorem DeleteConfig_pattern_frame {L : LikeOperator} (r : Repository)
    (A P : string) :
  let r' := (DeleteConfig r A P true).1 in
  configurations (db r')
  = filter (λ c, ¬ (application_name c = A
                    ∧ like P (configuration_name c) = true))
      (configurations (db r))
  ∧ (∀ c, c ∈ configurations (db r')
          ↔ c ∈ configurations (db r)
            ∧ ¬ (application_name c = A
                 ∧ like P (configuration_name c) = true))
  ∧ applications (db r') = applications (db r)
  ∧ (∀ K, like P K = true →
          GetConfig r' A K = ("", Some (not_found A K)))
  ∧ (∀ K, like P K = false → GetConfig r' A K = GetConfig r A K)
  ∧ (∀ A' K, A' ≠ A → GetConfig r' A' K = GetConfig r A' K)
  ∧ (∀ A', A' ≠ A → GetConfigs r' A' = GetConfigs r A').
Proof.
  intros r'. subst r'.
  split; [by rewrite DeleteConfig_eq|].
  split.
  { intros c. rewrite DeleteConfig_eq. simpl.
    rewrite list_elem_of_filter. unfold like_key. tauto. }
  split; [by rewrite DeleteConfig_eq|].
  split.
  { intros K HK. apply GetConfig_DeleteConfig_selected.
    intros c [Ha Hk]. split; [done|]. by rewrite Hk. }
  split.
  { intros K HK. apply GetConfig_DeleteConfig_unselected.
    intros c [Ha Hk] [_ Hl]. rewrite Hk in Hl. congruence. }
  split.
  { intros A' K Hne. apply GetConfig_DeleteConfig_unselected.
    intros c [Ha Hk] [Ha' _]. congruence. }
  intros A' Hne. by apply GetConfigs_DeleteConfig_other.
Qed.

(** C5.  In a database under the schema, [n ≥ 1] calls of
    [RegisterApplication A] all return nil and [GetApps] then lists [A]
    exactly once; a call for a name already in the table returns nil and
    leaves the repository as it was. *)
Theorem RegisterApplication_idempotent {L : LikeOperator} (r : Repository)
    (A : string) (n : nat) :
  schema_ok (db r) → 1 ≤ n →
  let r' := (RegisterApplication_times n r A).1 in
  (RegisterApplication_times n r A).2 = replicate n None
  ∧ (GetApps r').2 = None
  ∧ occurrences A (GetApps r').1 = 1
  ∧ (A ∈ applications (db r) → RegisterApplication r A = (r, None)).
Proof.
  intros Hok Hn r'. subst r'. destruct n as [|n]; [lia|].
  rewrite RegisterApplication_times_S. cbn [fst snd].
  rewrite GetApps_applications. cbn [fst snd].
  split; [done|]. split; [done|]. split.
  - apply occurrences_NoDup.
    + apply (schema_ok_run_call r (CallRegisterApplication A) Hok).
    + apply RegisterApplication_registers.
  - apply RegisterApplication_registered.
Qed.

Lemma RegisterApplication_idempotent_witness :
  occurrences "svc"
    (GetApps (RegisterApplication_times 3 svc_repo "svc").1).1 = 1.
Proof.
  apply (RegisterApplication_idempotent svc_repo "svc" 3).
  - apply (bool_decide_unpack _). vm_compute. exact I.
  - lia.
Defined.

(** C6.  In a database under the schema that holds a row for the pair
    [(A, K)], [DeleteConfig A K false] returns nil and deletes one row, that
    one: the other rows stay, in their order, and [applications] is left
    alone.  [GetConfig A K] then fails with an error that wraps
    [ErrConfigNotFound]. *)
Theorem DeleteConfig_exact_then_not_found {L : LikeOperator}
    (r : Repository) (A K V : string) :
  schema_ok (db r) →
  Configuration A K V ∈ configurations (db r) →
  let r' := (DeleteConfig r A K false).1 in
  (DeleteConfig r A K false).2 = None
  ∧ rows_deleted r r' = 1
  ∧ configurations (db r')
    = filter (λ c, c ≠ Configuration A K V) (configurations (db r))
  ∧ applications (db r') = applications (db r)
  ∧ GetConfig r' A K = ("", Some (not_found A K))
  ∧ errors_Is (not_found A K) ErrConfigNotFound = true
  ∧ kind_of (not_found A K) = NotFound.
Proof.
  intros [_ Hnd] Hin r'. subst r'.
  assert (filter (selects A K false) (configurations (db r))
          = [Configuration A K V]) as Hs
    by exact (filter_has_key_unique _ (Configuration A K V) Hnd Hin).
  rewrite rows_deleted_DeleteConfig, DeleteConfig_eq. cbn [fst snd db].
  rewrite Hs.
  split; [done|]. split; [done|]. split.
  { cbn [configurations]. apply filter_ext_in. intros c Hc. split.
    - intros Hk ->. apply Hk. by unfold selects, has_key.
    - intros Hne Hk. apply Hne.
      assert (c ∈ filter (selects A K false) (configurations (db r))) as Hcf
        by (by apply list_elem_of_filter).
      rewrite Hs in Hcf. by apply list_elem_of_singleton in Hcf. }
  split; [done|]. split; [|done].
  pose proof (GetConfig_DeleteConfig_selected r A K false A K) as Hg.
  rewrite DeleteConfig_eq in Hg. apply Hg. by intros c Hk.
Qed.

Lemma DeleteConfig_exact_then_not_found_witness :
  GetConfig (DeleteConfig svc_repo "svc" "timeout" false).1 "svc" "timeout"
  = ("", Some (not_found "svc" "timeout")).
Proof.
  apply (DeleteConfig_exact_then_not_found svc_repo "svc" "timeout" "30").
  - apply (bool_decide_unpack _). vm_compute. exact I.
  - apply (bool_decide_unpack _). vm_compute. exact I.
Defined.

(** C7.  In a database under the schema, [GetConfigs A] returns a nil error
    and the map that binds [K] to [V] exactly when the row [(A, K, V)] is
    stored; the map is empty when no row carries [A], which is the case of
    an application without entries and of a name that occurs nowhere in the
    store. *)
Theorem GetConfigs_all_or_empty (r : Repository) (A : string) :
  schema_ok (db r) →
  (GetConfigs r A).2 = None
  ∧ (∀ K V, (GetConfigs r A).1 !! K = Some V
            ↔ Configuration A K V ∈ configurations (db r))
  ∧ (entries_of A (db r) = [] ∨ ¬ known (db r) A →
     GetConfigs r A = (∅, None)).
Proof.
  intros Hok. split; [by rewrite GetConfigs_eq|]. split.
  - intros K V. by apply GetConfigs_lookup.
  - intros [Hnone|Hunknown]; [by apply GetConfigs_no_entries|].
    apply GetConfigs_no_entries.
    destruct (entries_of A (db r)) as [|c l] eqn:He; [done|].
    exfalso. apply Hunknown. right. by rewrite He.
Qed.

Lemma GetConfigs_all_or_empty_witness :
  (GetConfigs svc_repo "svc").1 !! "timeout" = Some "30"
  ∧ GetConfigs svc_repo "nobody" = (∅, None).
Proof.
  assert (schema_ok (db svc_repo)) as Hok
    by (apply (bool_decide_unpack _); vm_compute; exact I).
  split.
  - apply (GetConfigs_all_or_empty svc_repo "svc" Hok).
    apply (bool_decide_unpack _). vm_compute. exact I.
  - apply (GetConfigs_all_or_empty svc_repo "nobody" Hok).
    left. reflexivity.
Defined.

(** C8.  [MustRegisterApplication A] on a name already in the table
    returns the driver's constraint error and leaves the repository as it
    was, where [RegisterApplication A] returns nil. *)
Theorem MustRegisterApplication_duplicate {L : LikeOperator}
    (r : Repository) (A : string) :
  A ∈ applications (db r) →
  MustRegisterApplication r A
  = (r, Some (sqlite3Error ErrConstraint
                "UNIQUE constraint failed: applications.name"))
  ∧ RegisterApplication r A = (r, None).
Proof.
  intros Hin. split.
  - by rewrite MustRegisterApplication_eq, decide_True.
  - by apply RegisterApplication_registered.
Qed.

Lemma MustRegisterApplication_duplicate_witness :
  RegisterApplication svc_repo "web" = (svc_repo, None).
Proof.
  apply (MustRegisterApplication_duplicate svc_repo "web").
  apply (bool_decide_unpack _). vm_compute. exact I.
Defined.

(** C10.  [DefaultConfigurationFile] returns a string in both cases of
    [os.UserHomeDir]: [path.Join(home, ".config.db")] when the error is
    nil, and the fixed "/.config.db" when it is not, whatever the error. *)
Theorem DefaultConfigurationFile_never_fails
    (path_Join : string → string → string) (home : string) (err : error) :
  DefaultConfigurationFile path_Join (home, None)
  = path_Join home ".config.db"
  ∧ DefaultConfigurationFile path_Join (home, Some err) = "/.config.db".
Proof. split; reflexivity. Qed.

Example DefaultConfigurationFile_home :
  DefaultConfigurationFile join_slash ("/home/alice", None)
  = "/home/alice/.config.db".
Proof. reflexivity. Qed.

(** ** The scenario of the specification, run on the model *)

Example scenario_svc :
  let r := run_calls New_fresh
             [CallRegisterApplication "svc";
              CallUpsertConfig "svc" "timeout" "30";
              CallUpsertConfig "svc" "retries" "3"] in
  GetApps r = (["svc"], None)
  ∧ (GetConfigs r "svc").1 !! "timeout" = Some "30"
  ∧ (GetConfigs r "svc").1 !! "retries" = Some "3"
  ∧ size (GetConfigs r "svc").1 = 2
  ∧ (DeleteConfig r "svc" "timeout" false).2 = None
  ∧ GetConfig (DeleteConfig r "svc" "timeout" false).1 "svc" "timeout"
    = ("", Some (not_found "svc" "timeout"))
  ∧ (DeleteConfig r "svc" "missing" false).2 = Some (no_rows_affected 0).
Proof. vm_compute. repeat split; reflexivity. Qed.

Example scenario_pattern :
  configurations (db (DeleteConfig svc_repo "svc" "T%" true).1)
  = [Configuration "svc" "retries" "3"; Configuration "web" "timeout" "5"]
  ∧ (DeleteConfig svc_repo "svc" "x%" true).2 = Some (no_rows_affected 0).
Proof. vm_compute. split; reflexivity. Qed.

(** * Further properties of the repository *)

(** ** Tables after a write *)

Lemma elem_of_upsert_rows (a k v : string) (l : list configuration)
    (c : configuration) :
  c ∈ upsert_rows a k v l
  ↔ c = Configuration a k v ∨ (¬ has_key a k c ∧ c ∈ l).
Proof.
  split.
  - intros Hin. destruct (decide (has_key a k c)) as [Hk|Hk].
    + left. by eapply upsert_rows_has_key.
    + right. split; [done|]. by apply (upsert_rows_other a k v).
  - intros [->|[Hk Hin]]; [apply upsert_rows_elem|].
    by apply upsert_rows_other.
Qed.

Lemma filter_fmap_fixed {A : Type} (P : A → Prop) `{!∀ x, Decision (P x)}
    (f : A → A) (l : list A) :
  (∀ x, P (f x) ↔ P x) → (∀ x, P x → f x = x) →
  filter P (f <$> l) = filter P l.
Proof.
  intros Hiff Hfix. induction l as [|x l IH]; [done|].
  rewrite fmap_cons, !filter_cons, IH.
  destruct (decide (P (f x))) as [Hfx|Hfx], (decide (P x)) as [Hx|Hx].
  - by rewrite Hfix.
  - exfalso. by apply Hx, Hiff.
  - exfalso. by apply Hfx, Hiff.
  - done.
Qed.

Lemma filter_upsert_rows_other (P : configuration → Prop)
    `{!∀ x, Decision (P x)} (a k v : string) (l : list configuration) :
  (∀ c v', P (set_value v' c) ↔ P c) →
  (∀ c, P c → ¬ has_key a k c) →
  filter P (upsert_rows a k v l) = filter P l.
Proof.
  intros Hset Hother. unfold upsert_rows. case_decide as Hex.
  - apply filter_fmap_fixed.
    + intros c. case_decide; [apply Hset|done].
    + intros c Hc. rewrite decide_False; [done|]. by apply Hother.
  - rewrite filter_app, filter_cons_False, filter_nil, app_nil_r; [done|].
    intros HP. by apply (Hother _ HP).
Qed.

Lemma GetConfig_stored (r : Repository) (a k v : string) :
  schema_ok (db r) → Configuration a k v ∈ configurations (db r) →
  GetConfig r a k = (v, None).
Proof.
  intros [_ Hnd] Hin. rewrite GetConfig_rows.
  pose proof (filter_has_key_unique _ (Configuration a k v) Hnd Hin) as Hf.
  cbn [application_name configuration_name] in Hf. by rewrite Hf.
Qed.

Lemma GetConfig_absent (r : Repository) (a k : string) :
  (∀ v, Configuration a k v ∉ configurations (db r)) →
  GetConfig r a k = ("", Some (not_found a k)).
Proof.
  intros Hno. rewrite GetConfig_rows. rewrite filter_none; [done|].
  intros [a' k' v] Hc [Ha Hk]. simpl in *. subst a' k'. by apply (Hno v).
Qed.

Lemma GetConfigs_pair (r : Repository) (a : string) :
  GetConfigs r a = ((GetConfigs r a).1, None).
Proof. by rewrite GetConfigs_eq. Qed.

(** ** Registration *)

(** X1.  A database under the schema stays under the schema through any
    sequence of [MustRegisterApplication], [RegisterApplication],
    [UpsertConfig] and [DeleteConfig] calls, whatever each returns. *)
Theorem write_calls_keep_schema {L : LikeOperator} (r : Repository)
    (cs : list call) :
  schema_ok (db r) → schema_ok (db (run_calls r cs)).
Proof. apply schema_ok_run_calls. Qed.

Lemma write_calls_keep_schema_witness :
  schema_ok
    (db (run_calls svc_repo
           [CallUpsertConfig "svc" "timeout" "60";
            CallMustRegisterApplication "web";
            CallDeleteConfig "web" "t%" true;
            CallRegisterApplication "batch"])).
Proof.
  apply (write_calls_keep_schema svc_repo).
  apply (bool_decide_unpack _). vm_compute. exact I.
Defined.

(** X2.  [MustRegisterApplication A] returns nil exactly when [A] is not yet
    in the table.  Afterwards [GetApps] lists [A] and the names it listed
    before, and a call that returns an error has left the repository as it
    was. *)
Theorem MustRegisterApplication_succeeds_iff_new {L : LikeOperator}
    (r : Repository) (A : string) :
  ((MustRegisterApplication r A).2 = None ↔ A ∉ applications (db r))
  ∧ (∀ x, x ∈ (GetApps (MustRegisterApplication r A).1).1
          ↔ x = A ∨ x ∈ (GetApps r).1)
  ∧ ((MustRegisterApplication r A).2 ≠ None →
     (MustRegisterApplication r A).1 = r).
Proof.
  rewrite MustRegisterApplication_eq, !GetApps_applications.
  case_decide as Hin; cbn [fst snd].
  - split; [split; [done|tauto]|]. split; [|done].
    intros x. split; [tauto|]. by intros [->|?].
  - split; [tauto|]. split; [|done].
    intros x. cbn [fst db applications].
    rewrite elem_of_app, list_elem_of_singleton. tauto.
Qed.

(** X3.  [RegisterApplication] leaves the repository that
    [MustRegisterApplication] leaves and differs from it only in returning
    nil in every case. *)
Theorem RegisterApplication_is_MustRegisterApplication_without_error
    {L : LikeOperator} (r : Repository) (A : string) :
  (RegisterApplication r A).1 = (MustRegisterApplication r A).1
  ∧ (RegisterApplication r A).2 = None.
Proof.
  rewrite RegisterApplication_eq, MustRegisterApplication_eq.
  case_decide; cbn [fst snd]; [|done]. split; [|done].
  apply Repository_eta.
Qed.

(** X4.  Neither registration call touches the configurations: [GetConfig]
    and [GetConfigs] return after it what they returned before, for every
    application and name. *)
Theorem registration_keeps_configurations {L : LikeOperator}
    (r : Repository) (A A' K : string) :
  GetConfig (RegisterApplication r A).1 A' K = GetConfig r A' K
  ∧ GetConfigs (RegisterApplication r A).1 A' = GetConfigs r A'
  ∧ GetConfig (MustRegisterApplication r A).1 A' K = GetConfig r A' K
  ∧ GetConfigs (MustRegisterApplication r A).1 A' = GetConfigs r A'.
Proof.
  rewrite RegisterApplication_eq, MustRegisterApplication_eq.
  rewrite !GetConfig_rows, !GetConfigs_eq. unfold entries_of.
  by case_decide.
Qed.

(** ** Upserts *)

(** X5.  [UpsertConfig A K V] changes what is read for the pair [(A, K)]
    only: [GetConfig] for any other pair, [GetConfigs] for any other
    application and [GetApps] return what they returned before. *)
Theorem UpsertConfig_frame {L : LikeOperator} (r : Repository)
    (A K V : string) :
  (∀ A' K', (A', K') ≠ (A, K) →
     GetConfig (UpsertConfig r A K V).1 A' K' = GetConfig r A' K')
  ∧ (∀ A', A' ≠ A →
       GetConfigs (UpsertConfig r A K V).1 A' = GetConfigs r A')
  ∧ GetApps (UpsertConfig r A K V).1 = GetApps r.
Proof.
  rewrite UpsertConfig_eq. cbn [fst]. split; [|split].
  - intros A' K' Hne. rewrite !GetConfig_rows. cbn [db configurations].
    rewrite filter_upsert_rows_other; [done| |].
    + intros c v'. by destruct c.
    + intros c [Ha Hk] [Ha' Hk']. apply Hne. congruence.
  - intros A' Hne. rewrite !GetConfigs_eq. unfold entries_of.
    cbn [db configurations].
    rewrite filter_upsert_rows_other; [done| |].
    + intros c v'. by destruct c.
    + intros c Ha [Ha' _]. congruence.
  - by rewrite !GetApps_applications.
Qed.

(** X6.  In a database under the schema, the map that [GetConfigs A]
    returns after [UpsertConfig A K V] is the map it returned before with
    [K] set to [V]. *)
Theorem GetConfigs_after_UpsertConfig {L : LikeOperator} (r : Repository)
    (A K V : string) :
  schema_ok (db r) →
  GetConfigs (UpsertConfig r A K V).1 A
  = (<[K := V]> (GetConfigs r A).1, None).
Proof.
  intros Hok.
  pose proof (schema_ok_run_call r (CallUpsertConfig A K V) Hok) as Hok'.
  cbn [run_call] in Hok'.
  rewrite GetConfigs_pair. f_equal.
  apply map_eq. intros k. apply option_eq. intros v.
  rewrite (GetConfigs_lookup _ _ _ _ Hok').
  rewrite UpsertConfig_eq. cbn [fst db configurations].
  rewrite elem_of_upsert_rows.
  destruct (decide (k = K)) as [->|Hne].
  - rewrite lookup_insert_eq. split.
    + intros [[= ->]|[Hk _]]; [done|]. exfalso. by apply Hk.
    + intros [= ->]. by left.
  - rewrite lookup_insert_ne by done.
    rewrite (GetConfigs_lookup _ _ _ _ Hok). split.
    + intros [[= ? ?]|[_ Hin]]; [done|done].
    + intros Hin. right. split; [|done]. intros [_ Hk]. by apply Hne.
Qed.

Lemma GetConfigs_after_UpsertConfig_witness :
  GetConfigs (UpsertConfig svc_repo "svc" "timeout" "60").1 "svc"
  = (<["timeout" := "60"]> (GetConfigs svc_repo "svc").1, None).
Proof.
  apply (GetConfigs_after_UpsertConfig svc_repo "svc" "timeout" "60").
  apply (bool_decide_unpack _). vm_compute. exact I.
Defined.

Lemma fmap_fixed_in {A : Type} (f : A → A) (l : list A) :
  (∀ x, x ∈ l → f x = x) → f <$> l = l.
Proof.
  induction l as [|x l IH]; intros Hfix; [done|].
  rewrite fmap_cons, Hfix by (by left). f_equal.
  apply IH. intros y Hy. apply Hfix. by right.
Qed.

Lemma upsert_rows_twice (a k v1 v2 : string) (l : list configuration) :
  upsert_rows a k v2 (upsert_rows a k v1 l) = upsert_rows a k v2 l.
Proof.
  assert (Exists (has_key a k) (upsert_rows a k v1 l)) as Hex1.
  { apply Exists_exists. exists (Configuration a k v1).
    split; [apply upsert_rows_elem|done]. }
  unfold upsert_rows at 1. rewrite decide_True by exact Hex1. clear Hex1.
  unfold upsert_rows. case_decide as Hex.
  - rewrite <- list_fmap_compose. apply list_fmap_ext.
    intros i c _. simpl. destruct (decide (has_key a k c)) as [Hc|Hc].
    + by rewrite decide_True by (by destruct c).
    + by rewrite decide_False.
  - rewrite fmap_app. simpl. rewrite decide_True by done. f_equal.
    apply fmap_fixed_in. intros c Hc. rewrite decide_False; [done|].
    intros Hk. apply Hex, Exists_exists. by exists c.
Qed.

(** X7.  The last write wins and leaves no trace of the one before:
    [UpsertConfig A K V1] followed by [UpsertConfig A K V2] leaves the
    repository that [UpsertConfig A K V2] alone leaves.  In particular an
    upsert repeated with the same value changes nothing more. *)
Theorem UpsertConfig_last_write_wins {L : LikeOperator} (r : Repository)
    (A K V1 V2 : string) :
  UpsertConfig (UpsertConfig r A K V1).1 A K V2 = UpsertConfig r A K V2.
Proof.
  rewrite !UpsertConfig_eq. cbn [fst db applications configurations].
  by rewrite upsert_rows_twice.
Qed.

(** ** Deletions *)

(** X8.  In a database under the schema, the map that [GetConfigs A]
    returns after [DeleteConfig A K false] is the map it returned before
    without [K], whether or not the call has found a row. *)
Theorem GetConfigs_after_exact_DeleteConfig {L : LikeOperator}
    (r : Repository) (A K : string) :
  schema_ok (db r) →
  GetConfigs (DeleteConfig r A K false).1 A
  = (delete K (GetConfigs r A).1, None).
Proof.
  intros Hok.
  pose proof (schema_ok_run_call r (CallDeleteConfig A K false) Hok) as Hok'.
  cbn [run_call] in Hok'.
  rewrite GetConfigs_pair. f_equal.
  apply map_eq. intros k. apply option_eq. intros v.
  rewrite (GetConfigs_lookup _ _ _ _ Hok'), lookup_delete_Some.
  rewrite (GetConfigs_lookup _ _ _ _ Hok).
  rewrite DeleteConfig_eq. cbn [fst db configurations].
  rewrite list_elem_of_filter. unfold selects, has_key. simpl.
  split.
  - intros [Hk Hin]. split; [|done]. intros ->. by apply Hk.
  - intros [Hne Hin]. split; [|done]. intros [_ Hk]. by apply Hne.
Qed.

Lemma GetConfigs_after_exact_DeleteConfig_witness :
  GetConfigs (DeleteConfig svc_repo "svc" "timeout" false).1 "svc"
  = (delete "timeout" (GetConfigs svc_repo "svc").1, None).
Proof.
  apply (GetConfigs_after_exact_DeleteConfig svc_repo "svc" "timeout").
  apply (bool_decide_unpack _). vm_compute. exact I.
Defined.

(** X9.  In a database under the schema, the map that [GetConfigs A]
    returns after [DeleteConfig A P true] is the map it returned before
    restricted to the names that do not match [P]. *)
Theorem GetConfigs_after_pattern_DeleteConfig {L : LikeOperator}
    (r : Repository) (A P : string) :
  schema_ok (db r) →
  GetConfigs (DeleteConfig r A P true).1 A
  = (filter (λ kv : string * string, like P kv.1 = false)
       (GetConfigs r A).1, None).
Proof.
  intros Hok.
  pose proof (schema_ok_run_call r (CallDeleteConfig A P true) Hok) as Hok'.
  cbn [run_call] in Hok'.
  rewrite GetConfigs_pair. f_equal.
  apply map_eq. intros k. apply option_eq. intros v.
  rewrite (GetConfigs_lookup _ _ _ _ Hok'), map_lookup_filter_Some.
  rewrite (GetConfigs_lookup _ _ _ _ Hok).
  rewrite DeleteConfig_eq. cbn [fst db configurations].
  rewrite list_elem_of_filter. unfold selects, like_key. simpl.
  destruct (like P k); split.
  - intros [Hk _]. exfalso. by apply Hk.
  - by intros [_ ?].
  - by intros [_ ?].
  - intros [Hin _]. split; [|done]. by intros [_ ?].
Qed.

Lemma GetConfigs_after_pattern_DeleteConfig_witness :
  GetConfigs (DeleteConfig svc_repo "svc" "t%" true).1 "svc"
  = (filter (λ kv : string * string, like "t%" kv.1 = false)
       (GetConfigs svc_repo "svc").1, None).
Proof.
  apply (GetConfigs_after_pattern_DeleteConfig svc_repo "svc" "t%").
  apply (bool_decide_unpack _). vm_compute. exact I.
Defined.

(** X10.  When no row is stored for [(A, K)], [UpsertConfig A K V]
    followed by [DeleteConfig A K false] returns nil and gives back the
    repository as it was before the two calls. *)
Theorem UpsertConfig_then_DeleteConfig_restores {L : LikeOperator}
    (r : Repository) (A K V : string) :
  Forall (λ c, ¬ has_key A K c) (configurations (db r)) →
  DeleteConfig (UpsertConfig r A K V).1 A K false = (r, None).
Proof.
  intros Hno. rewrite Forall_forall in Hno.
  rewrite UpsertConfig_eq, DeleteConfig_eq.
  cbn [fst db applications configurations].
  unfold upsert_rows. rewrite decide_False.
  - rewrite !filter_app.
    rewrite (filter_none (selects A K false)) by exact Hno.
    rewrite (filter_id (λ c, ¬ selects A K false c)) by exact Hno.
    rewrite filter_cons_False by (intros Hk; by apply Hk).
    rewrite filter_cons_True by done.
    rewrite !filter_nil, app_nil_r. simpl.
    by rewrite Repository_eta.
  - intros Hex. apply Exists_exists in Hex as (c & Hc & Hk).
    by apply (Hno c).
Qed.

Lemma UpsertConfig_then_DeleteConfig_restores_witness :
  DeleteConfig (UpsertConfig svc_repo "web" "port" "80").1 "web" "port" false
  = (svc_repo, None).
Proof.
  apply (UpsertConfig_then_DeleteConfig_restores svc_repo "web" "port" "80").
  apply (bool_decide_unpack _). vm_compute. exact I.
Defined.

(** X11.  A [DeleteConfig] call that returns an error has changed nothing:
    the repository after it is the repository before it. *)
Theorem DeleteConfig_error_changes_nothing {L : LikeOperator}
    (r : Repository) (A K : string) (p : bool) :
  (DeleteConfig r A K p).2 ≠ None → (DeleteConfig r A K p).1 = r.
Proof. apply DeleteConfig_failed_same. Qed.

Lemma DeleteConfig_error_changes_nothing_witness :
  (DeleteConfig svc_repo "svc" "missing" false).1 = svc_repo.
Proof.
  apply (DeleteConfig_error_changes_nothing svc_repo "svc" "missing" false).
  vm_compute. discriminate.
Defined.

(** X12.  A [DeleteConfig] call repeated with the same arguments returns an
    error the second time and changes nothing, with or without a pattern:
    the error of zero affected rows when the engine accepted the first
    call, and the error of the first call again when it refused it. *)
Theorem DeleteConfig_twice_fails {L : LikeOperator} (r : Repository)
    (A K : string) (p : bool) :
  let r1 := (DeleteConfig r A K p).1 in
  (DeleteConfig r1 A K p).1 = r1
  ∧ is_Some (DeleteConfig r1 A K p).2
  ∧ (refused A K p (db r) = None →
     (DeleteConfig r1 A K p).2 = Some (no_rows_affected 0))
  ∧ (is_Some (refused A K p (db r)) →
     (DeleteConfig r1 A K p).2 = (DeleteConfig r A K p).2).
Proof.
  intros r1. destruct (refused A K p (db r)) as [[code msg]|] eqn:Hr.
  - assert ((DeleteConfig r A K p).2 ≠ None) as Herr
      by (by rewrite DeleteConfig_eq, Hr).
    assert (r1 = r) as -> by (by apply DeleteConfig_failed_same).
    split; [by apply DeleteConfig_failed_same|].
    split; [|done]. rewrite DeleteConfig_eq, Hr. by eexists.
  - assert (filter (selects A K p) (configurations (db r1)) = []) as Hf.
    { subst r1. rewrite DeleteConfig_eq. cbn [fst db configurations].
      apply filter_none. intros c Hc Hsel.
      apply list_elem_of_filter in Hc as [Hns _]. by apply Hns. }
    assert ((DeleteConfig r1 A K p).2 = Some (no_rows_affected 0)) as Herr.
    { rewrite DeleteConfig_eq. cbn [snd]. subst r1.
      rewrite refused_after_DeleteConfig by done.
      by rewrite decide_True by exact Hf. }
    split; [apply DeleteConfig_failed_same; by rewrite Herr|].
    split; [rewrite Herr; by eexists|]. split; [done|]. by intros [? ?].
Qed.

(** X13.  [DeleteConfig] never returns an error that wraps
    [ErrConfigNotFound]: a caller cannot tell a delete that found nothing
    by [errors.Is(err, ErrConfigNotFound)].  Its error is the one of zero
    affected rows, or the error of the engine wrapped with both
    identifiers. *)
Theorem DeleteConfig_error_is_not_ErrConfigNotFound {L : LikeOperator}
    (r : Repository) (A K : string) (p : bool) (err : error) :
  (DeleteConfig r A K p).2 = Some err →
  errors_Is err ErrConfigNotFound = false
  ∧ (err = no_rows_affected 0
     ∨ ∃ code msg,
         refused A K p (db r) = Some (code, msg)
         ∧ err = Errorf_w ("cannot delete a specific config "
                             +:+ pair_text A K +:+ ": ")
                   (sqlite3Error code msg)).
Proof.
  rewrite DeleteConfig_eq. cbn [snd].
  destruct (refused A K p (db r)) as [[code msg]|] eqn:Hr.
  - intros [= <-]. split; [done|]. right. by exists code, msg.
  - case_decide; [|done]. intros [= <-]. split; [done|]. by left.
Qed.

Lemma DeleteConfig_error_is_not_ErrConfigNotFound_witness :
  errors_Is (no_rows_affected 0) ErrConfigNotFound = false.
Proof.
  apply (DeleteConfig_error_is_not_ErrConfigNotFound
           svc_repo "svc" "missing" false).
  vm_compute. reflexivity.
Defined.

(** ** The two ways of reading *)

Lemma GetConfig_lookup (r : Repository) (a k : string) :
  schema_ok (db r) →
  GetConfig r a k =
  match (GetConfigs r a).1 !! k with
  | Some v => (v, None)
  | None => ("", Some (not_found a k))
  end.
Proof.
  intros Hok. destruct ((GetConfigs r a).1 !! k) as [v|] eqn:Hl.
  - apply GetConfig_stored; [done|]. by apply GetConfigs_lookup.
  - apply GetConfig_absent. intros v Hin.
    apply (GetConfigs_lookup _ _ _ _ Hok) in Hin. congruence.
Qed.

(** X14.  In a database under the schema, [GetConfig A K] and
    [GetConfigs A] agree: [GetConfig] returns the value that the map binds
    to [K], and its not-found error exactly when the map has no [K]. *)
Theorem GetConfig_agrees_with_GetConfigs (r : Repository) (A K : string) :
  schema_ok (db r) →
  GetConfig r A K =
  match (GetConfigs r A).1 !! K with
  | Some V => (V, None)
  | None => ("", Some (not_found A K))
  end.
Proof. apply GetConfig_lookup. Qed.

Lemma GetConfig_agrees_with_GetConfigs_witness :
  GetConfig svc_repo "web" "timeout" =
  match (GetConfigs svc_repo "web").1 !! "timeout" with
  | Some V => (V, None)
  | None => ("", Some (not_found "web" "timeout"))
  end.
Proof.
  apply (GetConfig_agrees_with_GetConfigs svc_repo "web" "timeout").
  apply (bool_decide_unpack _). vm_compute. exact I.
Defined.

Lemma upsert_rows_commute_elem (a1 k1 v1 a2 k2 v2 : string)
    (l : list configuration) (c : configuration) :
  (a1, k1) ≠ (a2, k2) →
  c ∈ upsert_rows a2 k2 v2 (upsert_rows a1 k1 v1 l)
  ↔ c ∈ upsert_rows a1 k1 v1 (upsert_rows a2 k2 v2 l).
Proof.
  intros Hne. rewrite !elem_of_upsert_rows.
  assert (¬ has_key a2 k2 (Configuration a1 k1 v1)) as H21
    by (intros [? ?]; simpl in *; congruence).
  assert (¬ has_key a1 k1 (Configuration a2 k2 v2)) as H12
    by (intros [? ?]; simpl in *; congruence).
  split.
  - intros [->|[Hk2 [->|[Hk1 Hin]]]]; [by right; split; [|left]|by left|].
    right. split; [done|]. right. by split.
  - intros [->|[Hk1 [->|[Hk2 Hin]]]]; [by right; split; [|left]|by left|].
    right. split; [done|]. right. by split.
Qed.

(** X15.  In a database under the schema, upserts of two different pairs
    commute as far as reading goes: in either order [GetConfigs],
    [GetConfig] and [GetApps] return the same afterwards. *)
Theorem UpsertConfig_commute_for_reads {L : LikeOperator} (r : Repository)
    (A1 K1 V1 A2 K2 V2 : string) :
  schema_ok (db r) → (A1, K1) ≠ (A2, K2) →
  let r12 := (UpsertConfig (UpsertConfig r A1 K1 V1).1 A2 K2 V2).1 in
  let r21 := (UpsertConfig (UpsertConfig r A2 K2 V2).1 A1 K1 V1).1 in
  (∀ A, GetConfigs r12 A = GetConfigs r21 A)
  ∧ (∀ A K, GetConfig r12 A K = GetConfig r21 A K)
  ∧ GetApps r12 = GetApps r21.
Proof.
  intros Hok Hne r12 r21.
  assert (schema_ok (db r12)) as Hok12.
  { apply (schema_ok_run_calls
             [CallUpsertConfig A1 K1 V1; CallUpsertConfig A2 K2 V2] r Hok). }
  assert (schema_ok (db r21)) as Hok21.
  { apply (schema_ok_run_calls
             [CallUpsertConfig A2 K2 V2; CallUpsertConfig A1 K1 V1] r Hok). }
  assert (∀ A, GetConfigs r12 A = GetConfigs r21 A) as Hmaps.
  { intros A. rewrite (GetConfigs_pair r12), (GetConfigs_pair r21). f_equal.
    apply map_eq. intros k. apply option_eq. intros v.
    rewrite (GetConfigs_lookup _ _ _ _ Hok12).
    rewrite (GetConfigs_lookup _ _ _ _ Hok21).
    by apply upsert_rows_commute_elem. }
  split; [done|]. split.
  - intros A K. rewrite (GetConfig_lookup r12), (GetConfig_lookup r21) by done.
    by rewrite Hmaps.
  - by rewrite !GetApps_applications.
Qed.

Lemma UpsertConfig_commute_for_reads_witness :
  GetConfigs
    (UpsertConfig (UpsertConfig svc_repo "svc" "timeout" "60").1
       "web" "port" "80").1 "web"
  = GetConfigs
      (UpsertConfig (UpsertConfig svc_repo "web" "port" "80").1
         "svc" "timeout" "60").1 "web".
Proof.
  apply (UpsertConfig_commute_for_reads svc_repo
           "svc" "timeout" "60" "web" "port" "80").
  - apply (bool_decide_unpack _). vm_compute. exact I.
  - discriminate.
Defined.

(** ** The scanning loops *)

(** X16.  The loop of [GetApps] is all or nothing: when each row scans
    into one name it returns the names in the order of the rows, after the
    ones it started with, and a nil error; as soon as one row does not, it
    returns the empty slice, not the names read so far, and an error. *)
Theorem GetApps_rows_all_or_nothing (rows : list row) (apps : list string) :
  (Forall (λ r : row, length r = 1) rows →
   GetApps_rows rows apps = (apps ++ concat rows, None))
  ∧ (¬ Forall (λ r : row, length r = 1) rows →
     ∃ err, GetApps_rows rows apps = ([], Some err)).
Proof.
  revert apps. induction rows as [|r rows IH]; intros apps.
  - split; [by rewrite app_nil_r|]. intros Hn. exfalso. by apply Hn.
  - destruct (IH (apps ++ r)) as [IHok IHbad].
    destruct r as [|v [|w t]]; simpl.
    + split; [by intros Hall; inversion Hall|]. by eexists.
    + split.
      * intros Hall. apply Forall_cons in Hall as [_ Hall].
        rewrite IHok by done. by rewrite <- app_assoc.
      * intros Hn. apply IHbad. intros Hall. apply Hn.
        by apply Forall_cons.
    + split; [by intros Hall; inversion Hall|]. by eexists.
Qed.

(** X17.  The loop of [GetConfigs] is all or nothing as well: when each row
    scans into a name and a value it returns a nil error and a map that
    binds the names it started with and the names of the rows; as soon as
    one row does not, it returns no map at all and an error. *)
Theorem GetConfigs_rows_all_or_nothing (a : string) (rows : list row)
    (m : gmap string string) :
  (Forall (λ r : row, length r = 2) rows →
   (GetConfigs_rows a rows m).2 = None
   ∧ ∀ k, is_Some ((GetConfigs_rows a rows m).1 !! k)
          ↔ is_Some (m !! k) ∨ ∃ v, [k; v] ∈ rows)
  ∧ (¬ Forall (λ r : row, length r = 2) rows →
     ∃ err, GetConfigs_rows a rows m = (∅, Some err)).
Proof.
  revert m. induction rows as [|r rows IH]; intros m.
  - split; [|intros Hn; exfalso; by apply Hn].
    intros _. split; [done|]. intros k. simpl. split; [by left|].
    intros [?|[v Hv]]; [done|]. by apply elem_of_nil in Hv.
  - destruct r as [|k0 [|v0 [|x t]]]; simpl.
    + split; [by intros Hall; inversion Hall|]. by eexists.
    + split; [by intros Hall; inversion Hall|]. by eexists.
    + destruct (IH (<[k0 := v0]> m)) as [IHok IHbad]. split.
      * intros Hall. apply Forall_cons in Hall as [_ Hall].
        destruct (IHok Hall) as [Herr Hdom]. split; [done|].
        intros k. rewrite Hdom, lookup_insert_is_Some. split.
        -- intros [[->|[_ ?]]|[v Hv]].
           ++ right. exists v0. by left.
           ++ by left.
           ++ right. exists v. by right.
        -- intros [Hm|[v Hv]].
           ++ left. destruct (decide (k0 = k)); [by left|by right].
           ++ apply elem_of_cons in Hv as [[= -> ->]|Hv]; [by left; left|].
              right. by exists v.
      * intros Hn. apply IHbad. intros Hall. apply Hn. by apply Forall_cons.
    + split; [by intros Hall; inversion Hall|]. by eexists.
Qed.

(** ** The command line *)

Lemma Println1_inj (a b : string) : Println1 a = Println1 b → a = b.
Proof.
  unfold Println1, newline. revert b.
  induction a as [|c a IH]; intros [|d b]; simpl; intros Heq.
  - done.
  - injection Heq as _ Heq. by destruct b.
  - injection Heq as _ Heq. by destruct a.
  - injection Heq as -> Heq. f_equal. by apply IH.
Qed.

#[global] Instance Println1_Inj : Inj (=) (=) Println1.
Proof. intros a b. apply Println1_inj. Qed.

Lemma text_is_not_json : "text" ≠ "json".
Proof. discriminate. Qed.

Lemma append_assoc (a b c : string) : (a +:+ b) +:+ c = a +:+ (b +:+ c).
Proof.
  induction a as [|x a IH]; [done|].
  change (String x ((a +:+ b) +:+ c) = String x (a +:+ (b +:+ c))).
  by rewrite IH.
Qed.

Lemma append_nil_r (a : string) : a +:+ EmptyString = a.
Proof.
  induction a as [|x a IH]; [done|].
  change (String x (a +:+ EmptyString) = String x a). by rewrite IH.
Qed.

Lemma newline_free_app (a b : string) :
  newline_free a = true → newline_free b = true →
  newline_free (a +:+ b) = true.
Proof.
  intros Ha Hb. induction a as [|x a IH]; simpl in *; [done|].
  apply andb_true_iff in Ha as [Hx Ha]. by rewrite Hx, IH.
Qed.

Lemma lines_from_line (a cur rest : string) :
  newline_free a = true →
  lines_from cur (a +:+ newline +:+ rest)
  = (cur +:+ a) :: lines_from EmptyString rest.
Proof.
  revert cur. induction a as [|x a IH]; intros cur Ha; simpl in *.
  - by rewrite append_nil_r.
  - apply andb_true_iff in Ha as [Hx Ha].
    apply negb_true_iff in Hx. rewrite Hx, IH by done.
    by rewrite append_assoc.
Qed.

Lemma lines_output_text (l : list string) :
  Forall (λ a, newline_free a = true) l →
  lines (output_text (Println1 <$> l)) = l.
Proof.
  unfold lines. induction 1 as [|a l Ha _ IH]; [done|].
  rewrite fmap_cons. simpl. unfold Println1 at 1.
  rewrite append_assoc, lines_from_line by done. by rewrite IH.
Qed.

Lemma Println2_Println1 (k v : string) :
  Println2 k v = Println1 (k +:+ " " +:+ v).
Proof. unfold Println2, Println1. by rewrite !append_assoc. Qed.

Section CommandLine.

Context {L : LikeOperator} {R : Runtime}.

Lemma ListAppCmd_Run_opened (r : Repository) :
  ListAppCmd_Run (inl r) = (Println1 <$> applications (db r), None).
Proof. unfold ListAppCmd_Run. by rewrite GetApps_applications. Qed.

Lemma ListConfigsCmd_Run_opened (r : Repository) (f a : string) :
  ListConfigsCmd_Run (inl r) f a =
  if decide (f = "json") then
    match json_MarshalIndent (GetConfigs r a).1 with
    | (_, Some err) => ([], Some (Errorf_w "json formatting configs: " err))
    | (jsonConfig, None) => ([Println1 jsonConfig], None)
    end
  else if decide (f = "text") then
    ((λ kv, Println2 kv.1 kv.2) <$> range_order (GetConfigs r a).1, None)
  else
    ([], Some (errorString
           ("cannot list configs for application: unknow format " +:+ f))).
Proof. unfold ListConfigsCmd_Run. by rewrite GetConfigs_pair. Qed.

(** X18.  A run ends with status 0 or 1; it ends with 1 exactly when
    [log.Fatal] has logged something, and then it has printed nothing on the
    standard output: no command prints part of its answer before it
    fails. *)
Theorem main_fails_without_output (opened : Repository + error) (cmd : Cmd) :
  (status (main opened cmd) = 0%Z ∨ status (main opened cmd) = 1%Z)
  ∧ (status (main opened cmd) = 1%Z ↔ is_Some (logged (main opened cmd)))
  ∧ (status (main opened cmd) = 1%Z → stdout (main opened cmd) = []).
Proof.
  assert (∀ out err repo,
    (err = None ∨ out = []) →
    let p := main_end out err repo in
    (status p = 0%Z ∨ status p = 1%Z)
    ∧ (status p = 1%Z ↔ is_Some (logged p))
    ∧ (status p = 1%Z → stdout p = [])) as Hend.
  { intros out [err|] repo Hor; simpl.
    - destruct Hor as [?| ->]; [done|]. split; [by right|]. split; [|done].
      split; [by eexists|done].
    - split; [by left|]. split; [|done]. split; [done|by intros [? ?]]. }
  destruct cmd as [|f a|a c v|p a c]; unfold main.
  - destruct opened as [r|err].
    + rewrite ListAppCmd_Run_opened. apply Hend. by left.
    + simpl. split; [by right|]. split; [|done]. split; [by eexists|done].
  - destruct opened as [r|err].
    + rewrite ListConfigsCmd_Run_opened.
      repeat case_decide;
        [destruct (json_MarshalIndent (GetConfigs r a).1) as [j [e|]]|..];
        apply Hend; (by left) || (by right).
    + simpl. split; [by right|]. split; [|done]. split; [by eexists|done].
  - destruct opened as [r|err]; simpl.
    + split; [by left|]. split; [|done]. split; [done|by intros [? ?]].
    + split; [by right|]. split; [|done]. split; [by eexists|done].
  - destruct opened as [r|err]; simpl.
    + destruct (DeleteConfig r a c p) as [r' err] eqn:Hd. apply Hend. by right.
    + split; [by right|]. split; [|done]. split; [by eexists|done].
Qed.

(** X19.  With the database opened, a run ends with status 0 exactly in
    these cases: always for [list-app] and [upsert-config]; for
    [list-configs] when the format is "text", or is "json" and the
    marshalling succeeds; for [delete-config] when some row is selected. *)
Theorem main_status_of_opened (r : Repository) (cmd : Cmd) :
  status (main (inl r) cmd) = 0%Z
  ↔ match cmd with
    | ListApp => True
    | ListConfigs f a =>
        f = "text"
        ∨ (f = "json" ∧ (json_MarshalIndent (GetConfigs r a).1).2 = None)
    | UpsertConfigC _ _ _ => True
    | DeleteConfigC p a k => Exists (selects a k p) (configurations (db r))
    end.
Proof.
  destruct cmd as [|f a|a c v|p a c]; unfold main.
  - by rewrite ListAppCmd_Run_opened.
  - rewrite ListConfigsCmd_Run_opened. case_decide as Hj.
    + destruct (json_MarshalIndent (GetConfigs r a).1) as [j [e|]]; simpl.
      * split; [done|]. intros [->|[_ ?]]; done.
      * split; [|done]. intros _. by right.
    + case_decide as Ht; simpl.
      * split; [|done]. intros _. by left.
      * split; [done|]. intros [?|[? _]]; done.
  - done.
  - unfold DeleteConfigCmd_Run, GetRepo. rewrite <- DeleteConfig_nil_iff.
    destruct (DeleteConfig r a c p) as [r' [err|]]; by simpl.
Qed.


Lemma range_order_entries (r : Repository) (A : string) :
  schema_ok (db r) →
  range_order (GetConfigs r A).1
  ≡ₚ (λ c, (configuration_name c, configuration_value c))
       <$> entries_of A (db r).
Proof.
  intros [_ Hnd]. rewrite range_order_perm, GetConfigs_eq. cbn [fst].
  rewrite map_to_list_to_map.
  - by rewrite reverse_Permutation.
  - rewrite fmap_reverse, reverse_Permutation, <- list_fmap_compose.
    by apply NoDup_names_of_application.
Qed.

(** X21.  In a database under the schema, [list-configs] in the format
    "text" calls [Println] once for each row stored for the application, in
    some order, with the name and the value, and ends with status 0.  When
    no name and no value of these rows holds a newline, the lines of the
    standard output are, in some order, the texts "name value" of the rows,
    one line for each row. *)
Theorem main_ListConfigs_text (r : Repository) (A : string) :
  schema_ok (db r) →
  stdout (main (inl r) (ListConfigs "text" A))
  ≡ₚ (λ c, Println2 (configuration_name c) (configuration_value c))
       <$> entries_of A (db r)
  ∧ status (main (inl r) (ListConfigs "text" A)) = 0%Z
  ∧ (Forall (λ c, newline_free (configuration_name c) = true
                  ∧ newline_free (configuration_value c) = true)
       (entries_of A (db r)) →
     lines (output_text (stdout (main (inl r) (ListConfigs "text" A))))
     ≡ₚ (λ c, configuration_name c +:+ " " +:+ configuration_value c)
          <$> entries_of A (db r)).
Proof.
  intros Hok. pose proof (range_order_entries r A Hok) as Hperm.
  unfold main. rewrite ListConfigsCmd_Run_opened.
  rewrite decide_False by apply text_is_not_json.
  rewrite decide_True by done. simpl.
  split; [by rewrite Hperm, <- list_fmap_compose|]. split; [done|].
  intros Hfree.
  assert ((λ kv : string * string, Println2 kv.1 kv.2)
            <$> range_order (GetConfigs r A).1
          = Println1 <$> ((λ kv : string * string, kv.1 +:+ " " +:+ kv.2)
                            <$> range_order (GetConfigs r A).1)) as ->.
  { rewrite <- list_fmap_compose. apply list_fmap_ext.
    intros i kv _. apply Println2_Println1. }
  rewrite lines_output_text.
  - by rewrite Hperm, <- list_fmap_compose.
  - rewrite Hperm, <- list_fmap_compose. apply Forall_fmap.
    eapply Forall_impl; [exact Hfree|]. intros c [Hk Hv]. simpl.
    apply newline_free_app; [done|]. by apply newline_free_app.
Qed.

(** X22.  When the database cannot be opened, every command ends with
    status 1 and prints nothing.  [list-app] and [list-configs] log the
    error wrapped by [Run] behind "cannot run command", [upsert-config] and
    [delete-config] log it from [GetRepo]; in both texts nothing separates
    the error from the words before it. *)
Theorem main_cannot_open (err : error) (cmd : Cmd) :
  status (main (inr err) cmd) = 1%Z
  ∧ stdout (main (inr err) cmd) = []
  ∧ repository (main (inr err) cmd) = None
  ∧ logged (main (inr err) cmd)
    = Some (match cmd with
            | ListApp | ListConfigs _ _ =>
                "cannot run commandcannot open configuration database: "
                  +:+ Error err
            | UpsertConfigC _ _ _ | DeleteConfigC _ _ _ =>
                "cannot open configuration database" +:+ Error err
            end).
Proof. destruct cmd; repeat split; reflexivity. Qed.

(** X23.  A [delete-config] run that ends with status 1 on an opened
    database has selected no row and leaves the repository as it was.  It
    logs "cannot run command" with the text of the error of [DeleteConfig]
    right behind it: that of zero affected rows, unless the engine has
    refused the statement. *)
Theorem main_DeleteConfig_failure (r : Repository) (p : bool)
    (A K : string) :
  status (main (inl r) (DeleteConfigC p A K)) = 1%Z →
  repository (main (inl r) (DeleteConfigC p A K)) = Some r
  ∧ filter (selects A K p) (configurations (db r)) = []
  ∧ (∃ err, (DeleteConfig r A K p).2 = Some err
            ∧ logged (main (inl r) (DeleteConfigC p A K))
              = Some ("cannot run command" +:+ Error err))
  ∧ (refused A K p (db r) = None →
     logged (main (inl r) (DeleteConfigC p A K))
     = Some "cannot run commandunexpected number of affected rows: 0").
Proof.
  unfold main, DeleteConfigCmd_Run, GetRepo.
  pose proof (DeleteConfig_failed_same r A K p) as Hsame.
  pose proof (DeleteConfig_nil_iff r A K p) as Hnil.
  pose proof (DeleteConfig_eq r A K p) as Heq.
  destruct (DeleteConfig r A K p) as [r' [err|]]; [|done].
  cbn [fst snd] in *. intros _. simpl.
  split; [f_equal; by apply Hsame|]. split.
  { apply filter_nil_Forall, Forall_forall. intros c Hc Hsel.
    assert (Exists (selects A K p) (configurations (db r))) as Hex
      by (apply Exists_exists; by exists c).
    by apply Hnil in Hex. }
  split; [by exists err|]. intros Hr.
  injection Heq as _ Herr. rewrite Hr in Herr.
  case_decide; [|done]. by injection Herr as ->.
Qed.

End CommandLine.


Lemma main_ListConfigs_text_witness :
  status (main (inl svc_repo) (ListConfigs "text" "svc")) = 0%Z.
Proof.
  apply (main_ListConfigs_text svc_repo "svc").
  apply (bool_decide_unpack _). vm_compute. exact I.
Defined.

Lemma main_DeleteConfig_failure_witness :
  repository (main (inl svc_repo) (DeleteConfigC false "svc" "missing"))
  = Some svc_repo.
Proof.
  apply (main_DeleteConfig_failure svc_repo false "svc" "missing").
  vm_compute. reflexivity.
Defined.

Example main_list_configs_json :
  stdout (main (inl svc_repo) (ListConfigs "json" "web"))
  = [Println1 ("{" +:+ newline +:+ "    " +:+ quote +:+ "timeout" +:+ quote
               +:+ ": " +:+ quote +:+ "5" +:+ quote +:+ newline +:+ "}")].
Proof. vm_compute. reflexivity. Qed.

(** ** Applications stay *)

Lemma run_call_keeps_applications {L : LikeOperator} (r : Repository)
    (c : call) (A : string) :
  A ∈ applications (db r) → A ∈ applications (db (run_call r c).1).
Proof.
  intros Hin. destruct c as [a|a|a k v|a k p]; unfold run_call.
  - rewrite MustRegisterApplication_eq. case_decide; [done|].
    simpl. apply elem_of_app. by left.
  - rewrite RegisterApplication_eq. simpl. case_decide; [done|].
    apply elem_of_app. by left.
  - by rewrite UpsertConfig_eq.
  - by rewrite DeleteConfig_eq.
Qed.

(** X24.  The package has no call that removes an application: a name
    that [GetApps] lists is still listed after any sequence of
    [MustRegisterApplication], [RegisterApplication], [UpsertConfig] and
    [DeleteConfig] calls. *)
Theorem applications_are_never_removed {L : LikeOperator} (r : Repository)
    (cs : list call) (A : string) :
  A ∈ (GetApps r).1 → A ∈ (GetApps (run_calls r cs)).1.
Proof.
  rewrite !GetApps_applications. cbn [fst]. revert r.
  induction cs as [|c cs IH]; intros r Hin; [done|].
  unfold run_calls. simpl. apply IH. by apply run_call_keeps_applications.
Qed.

Lemma applications_are_never_removed_witness :
  "web" ∈ (GetApps (run_calls svc_repo
                      [CallDeleteConfig "web" "%" true;
                       CallMustRegisterApplication "web";
                       CallUpsertConfig "web" "port" "80"])).1.
Proof.
  apply (applications_are_never_removed svc_repo).
  apply (bool_decide_unpack _). vm_compute. exact I.
Defined.

(** ** The limit on the pattern, run on the model *)

Example scenario_pattern_limit :
  (DeleteConfig svc_repo "svc"
     (N.iter 50000 (String "x"%char) EmptyString) true).2
  = Some (no_rows_affected 0)
  ∧ refused "svc" long_pattern true (db svc_repo)
    = Some (ErrError, "LIKE or GLOB pattern too complex")
  ∧ (DeleteConfig svc_repo "svc" long_pattern true).1 = svc_repo
  ∧ refused "nobody" long_pattern true (db svc_repo) = None
  ∧ (DeleteConfig svc_repo "nobody" long_pattern true).2
    = Some (no_rows_affected 0)
  ∧ status (main (inl svc_repo) (DeleteConfigC true "svc" long_pattern))
    = 1%Z.
Proof. vm_compute. repeat split; reflexivity. Qed.
